(** * A C++ tutorial program (main.cpp): shallow embedding and properties

    The program is one translation unit: [main] prints a banner, calls ten
    demonstration routines in a fixed order and returns 0.  Every routine
    writes to [std::cout]; two of them change the formatting flags of
    [std::cout]; one prints the address of a local variable; one contains a
    try block with four ordered handlers.

    The embedding is a computation type [M] that reads the run's
    environment, threads the process state (the flags of [std::cout] and
    the store of addressable cells) and collects the events of the run
    (routine entries and what is written to standard output).  A
    computation ends by returning, by throwing, or in undefined
    behaviour. *)

From Stdlib Require Import ZArith List String Ascii Bool Lia.
From Stdlib Require Import DecimalString HexString QArith.
From Stdlib Require Import DecimalFacts DecimalPos DecimalN DecimalZ.
From Stdlib Require Import Sorted Permutation.
Import ListNotations.

Local Open Scope string_scope.
Local Open Scope Z_scope.

(** ** 32-bit [int] *)

Module Int32.

Definition min_int : Z := - 2 ^ 31.
Definition max_int : Z := 2 ^ 31 - 1.

(** Two's complement wrap-around into [min_int .. max_int]. *)
Definition wrap (z : Z) : Z := (z + 2 ^ 31) mod 2 ^ 32 - 2 ^ 31.

Definition add (a b : Z) : Z := wrap (a + b).
Definition mul (a b : Z) : Z := wrap (a * b).

(** [a / b] on [int] is undefined behaviour for a zero divisor and for
    [min_int / -1], whose quotient does not fit an [int]. *)
Definition div_defined (a b : Z) : bool :=
  negb (b =? 0) && negb ((a =? min_int) && (b =? -1)).

(** The quotient where [a / b] is defined: truncation towards zero. *)
Definition div (a b : Z) : Z := wrap (Z.quot a b).

Definition in_range (z : Z) : bool := (min_int <=? z) && (z <=? max_int).

(** The value as [unsigned int], which is what hexadecimal output
    shows. *)
Definition to_unsigned (z : Z) : Z := z mod 2 ^ 32.

End Int32.

(** ** Text *)

Definition nl : string := String (ascii_of_nat 10) EmptyString.

Definition decimal (z : Z) : string := NilZero.string_of_int (Z.to_int z).

Definition hexadecimal (z : Z) : string :=
  match z with
  | Zpos p => HexString.Raw.of_pos p ""
  | _ => "0"
  end.

(** ** Formatting state of an output stream ([std::ios_base]) *)

Inductive radix := Dec | Hex.
Inductive float_style := DefaultFloat | Fixed | Scientific.

Record ios := {
  boolalpha : bool;
  showbase : bool;
  basefield : radix;
  floatfield : float_style;
  precision : nat
}.

(** A freshly constructed stream. *)
Definition ios_init : ios :=
  {| boolalpha := false; showbase := false; basefield := Dec;
     floatfield := DefaultFloat; precision := 6 |}.

Definition set_boolalpha (b : bool) (f : ios) : ios :=
  {| boolalpha := b; showbase := showbase f; basefield := basefield f;
     floatfield := floatfield f; precision := precision f |}.

Definition set_showbase (b : bool) (f : ios) : ios :=
  {| boolalpha := boolalpha f; showbase := b; basefield := basefield f;
     floatfield := floatfield f; precision := precision f |}.

Definition set_basefield (r : radix) (f : ios) : ios :=
  {| boolalpha := boolalpha f; showbase := showbase f; basefield := r;
     floatfield := floatfield f; precision := precision f |}.

Definition set_floatfield (s : float_style) (f : ios) : ios :=
  {| boolalpha := boolalpha f; showbase := showbase f;
     basefield := basefield f; floatfield := s; precision := precision f |}.

Definition set_precision (n : nat) (f : ios) : ios :=
  {| boolalpha := boolalpha f; showbase := showbase f;
     basefield := basefield f; floatfield := floatfield f; precision := n |}.

(** ** What reaches an output stream

    Characters are kept as text.  A [double] is kept as the request to
    print it (style, precision, value): its digits are produced by the
    C++ library's floating-point conversion.  A pointer is kept as the
    machine address it holds: the characters used for it are
    implementation-defined. *)

Inductive token :=
| Text (s : string)
| Real (style : float_style) (prec : nat) (x : Q)
| Pointer (address : Z).

(** [operator<<] for [int]: decimal, or hexadecimal of the unsigned value
    with the [0x] prefix when [showbase] is set and the value is not 0. *)
Definition show_int (f : ios) (z : Z) : string :=
  match basefield f with
  | Dec => decimal z
  | Hex =>
      let u := Int32.to_unsigned z in
      (if showbase f && negb (u =? 0) then "0x" else "") ++ hexadecimal u
  end.

Definition show_bool (f : ios) (b : bool) : string :=
  if boolalpha f then (if b then "true" else "false")
  else (if b then "1" else "0").

Definition show_double (f : ios) (x : Q) : token :=
  Real (floatfield f) (precision f) x.

(** ** Exceptions of the C++ standard library and thrown values *)

Module std.

(** The part of the [std::exception] hierarchy that the program and the
    library calls it makes refer to. *)
Inductive exception_class :=
| exception
| logic_error | invalid_argument | out_of_range
| runtime_error | range_error | overflow_error
| bad_alloc.

Definition base (c : exception_class) : option exception_class :=
  match c with
  | exception => None
  | logic_error | runtime_error | bad_alloc => Some exception
  | invalid_argument | out_of_range => Some logic_error
  | range_error | overflow_error => Some runtime_error
  end.

Definition eqb (c d : exception_class) : bool :=
  match c, d with
  | exception, exception | logic_error, logic_error
  | invalid_argument, invalid_argument | out_of_range, out_of_range
  | runtime_error, runtime_error | range_error, range_error
  | overflow_error, overflow_error | bad_alloc, bad_alloc => true
  | _, _ => false
  end.

(** [c] is [target] or has it as a (direct or indirect) base class. *)
Fixpoint derives_within (depth : nat) (c target : exception_class) : bool :=
  eqb c target ||
  match depth, base c with
  | S d, Some b => derives_within d b target
  | _, _ => false
  end.

Definition derives : exception_class -> exception_class -> bool :=
  derives_within 2.

End std.

(** A thrown value: an object of a standard exception class with the text
    its [what()] returns, or a value of any other type (an [int], a
    string, a user type), here with its content as text. *)
Inductive thrown :=
| Std (c : std.exception_class) (what : string)
| Other (content : string).

(** ** The run's environment, the process state and the events of a run *)

Definition loc := nat.

Record Person := { name : string; age : Z }.

Inductive cell :=
| IntCell (z : Z)
| PersonCell (p : Person).

(** The state that exists across routine calls: the flags of [std::cout]
    and the live addressable objects (locals whose address is taken or
    that are bound by reference, and heap objects). *)
Record state := {
  cout_flags : ios;
  cells : list (loc * cell)
}.

Definition initial_state : state := {| cout_flags := ios_init; cells := [] |}.

(** What a run is started with: standard input, the argument vector, and
    where the loader and allocator place the objects of this run. *)
Record environment := {
  stdin : string;
  argv : list string;
  layout : loc -> Z
}.

(** What is fixed when the program is built: the language standard (the
    [__cplusplus >= 202002L] test), the content of a moved-from
    [std::string] (valid but unspecified), and the [what()] text of the
    [std::out_of_range] thrown by [vector::at] for an index and a size. *)
Record platform := {
  cpp20 : bool;
  moved_from : string;
  range_check : nat -> nat -> string
}.

Inductive routine :=
| DemonstrateBasicSyntax
| DemonstrateVariablesAndTypes
| DemonstrateControlFlow
| DemonstrateFunctions
| DemonstrateReferencesAndPointers
| DemonstrateClasses
| DemonstrateModernCpp
| DemonstrateStl
| DemonstrateErrorHandling
| DemonstrateModernIO.

Inductive event :=
| Enter (r : routine)
| Out (t : token).

Inductive outcome (A : Type) :=
| Ret (a : A)
| Throw (x : thrown)
| Undefined.

Arguments Ret {A} a.
Arguments Throw {A} x.
Arguments Undefined {A}.

Definition M (A : Type) : Type :=
  environment -> state -> outcome A * state * list event.

Definition ret {A} (a : A) : M A := fun _ s => (Ret a, s, []).

Definition bind {A B} (m : M A) (k : A -> M B) : M B :=
  fun e s =>
    match m e s with
    | (Ret a, s1, out1) =>
        match k a e s1 with
        | (r, s2, out2) => (r, s2, (out1 ++ out2)%list)
        end
    | (Throw x, s1, out1) => (Throw x, s1, out1)
    | (Undefined, s1, out1) => (Undefined, s1, out1)
    end.

Notation "x <- c1 ;; c2" := (bind c1 (fun x => c2))
  (at level 61, c1 at next level, right associativity).
Notation "c1 ;; c2" := (bind c1 (fun _ => c2))
  (at level 61, right associativity).

Definition throw {A} (x : thrown) : M A := fun _ s => (Throw x, s, []).
Definition undefined {A} : M A := fun _ s => (Undefined, s, []).
Definition emit (ev : list event) : M unit := fun _ s => (Ret tt, s, ev).
Definition enter (r : routine) : M unit := emit [Enter r].

Definition result_of {A} (r : outcome A * state * list event) : outcome A :=
  fst (fst r).
Definition state_of {A} (r : outcome A * state * list event) : state :=
  snd (fst r).
Definition events_of {A} (r : outcome A * state * list event) : list event :=
  snd r.

(** *** try / catch *)

(** [catch (const C& e)] gets [e.what()]; [catch (...)] gets nothing. *)
Inductive handler :=
| catch_ref (c : std.exception_class) (h : string -> M unit)
| catch_all (h : M unit).

(** The handlers are tried in order; the first whose type matches runs. *)
Fixpoint select_handler (hs : list handler) (x : thrown) : option (M unit) :=
  match hs with
  | [] => None
  | catch_ref c h :: rest =>
      match x with
      | Std d what => if std.derives d c then Some (h what)
                      else select_handler rest x
      | Other _ => select_handler rest x
      end
  | catch_all h :: _ => Some h
  end.

Definition try_catch (body : M unit) (hs : list handler) : M unit :=
  fun e s =>
    match body e s with
    | (Throw x, s1, out1) =>
        match select_handler hs x with
        | Some h =>
            match h e s1 with
            | (r, s2, out2) => (r, s2, (out1 ++ out2)%list)
            end
        | None => (Throw x, s1, out1)
        end
    | r => r
    end.

(** *** The store *)

Fixpoint lookup (l : loc) (cs : list (loc * cell)) : option cell :=
  match cs with
  | [] => None
  | (l', c) :: rest => if Nat.eqb l l' then Some c else lookup l rest
  end.

Fixpoint remove (l : loc) (cs : list (loc * cell)) : list (loc * cell) :=
  match cs with
  | [] => []
  | (l', c) :: rest => if Nat.eqb l l' then rest else (l', c) :: remove l rest
  end.

Fixpoint update (l : loc) (c : cell) (cs : list (loc * cell))
  : list (loc * cell) :=
  match cs with
  | [] => []
  | (l', c') :: rest =>
      if Nat.eqb l l' then (l', c) :: rest else (l', c') :: update l c rest
  end.

(** The first location above every live one. *)
Fixpoint fresh (cs : list (loc * cell)) : loc :=
  match cs with
  | [] => 0%nat
  | (l, _) :: rest => Nat.max (S l) (fresh rest)
  end.

Definition with_cells (cs : list (loc * cell)) (s : state) : state :=
  {| cout_flags := cout_flags s; cells := cs |}.

(** A new object: a local that is given storage, [new], [make_unique],
    [make_shared]. *)
Definition alloc (c : cell) : M loc :=
  fun _ s =>
    let l := fresh (cells s) in
    (Ret l, with_cells ((l, c) :: cells s) s, []).

(** Reading through a pointer or reference; a dangling one is undefined
    behaviour. *)
Definition load (l : loc) : M cell :=
  fun _ s =>
    match lookup l (cells s) with
    | Some c => (Ret c, s, [])
    | None => (Undefined, s, [])
    end.

Definition load_int (l : loc) : M Z :=
  c <- load l ;;
  match c with
  | IntCell z => ret z
  | PersonCell _ => undefined
  end.

Definition load_person (l : loc) : M Person :=
  c <- load l ;;
  match c with
  | PersonCell p => ret p
  | IntCell _ => undefined
  end.

Definition store_int (l : loc) (z : Z) : M unit :=
  fun _ s =>
    match lookup l (cells s) with
    | Some (IntCell _) => (Ret tt, with_cells (update l (IntCell z) (cells s)) s, [])
    | _ => (Undefined, s, [])
    end.

(** [&x]: the machine address at which this run holds the object. *)
Definition address_of (l : loc) : M Z :=
  fun e s => (Ret (layout e l), s, []).

(** End of lifetime: scope exit of a local, [delete], the release of the
    last smart pointer. *)
Definition free (l : loc) : M unit :=
  fun _ s =>
    match lookup l (cells s) with
    | Some _ => (Ret tt, with_cells (remove l (cells s)) s, [])
    | None => (Undefined, s, [])
    end.

(** [a / b] evaluated at run time. *)
Definition divide (a b : Z) : M Z :=
  if Int32.div_defined a b then ret (Int32.div a b) else undefined.

(** ** Output streams

    What can stand to the right of [<<] in this program: values and the
    manipulators of [<iostream>] and [<iomanip>] that it uses. *)

Inductive item :=
| str (s : string)
| chr (c : ascii)
| int (z : Z)
| dbl (x : Q)
| boolean (b : bool)
| ptr (address : Z)
| built (t : list token)
| endl
| m_boolalpha
| m_showbase
| hex
| dec
| fixed
| scientific
| defaultfloat
| setprecision (n : nat).

Record ostream := {
  flags : ios;
  written : list token
}.

Definition put (t : token) (o : ostream) : ostream :=
  {| flags := flags o; written := (written o ++ [t])%list |}.

Definition reflag (f : ios -> ios) (o : ostream) : ostream :=
  {| flags := f (flags o); written := written o |}.

(** One [<<].  [std::endl] writes a newline and flushes; output is
    recorded as soon as it is written, so the flush changes nothing
    here. *)
Definition insert (o : ostream) (it : item) : ostream :=
  match it with
  | str s => put (Text s) o
  | chr c => put (Text (String c EmptyString)) o
  | int z => put (Text (show_int (flags o) z)) o
  | dbl x => put (show_double (flags o) x) o
  | boolean b => put (Text (show_bool (flags o) b)) o
  | ptr a => put (Pointer a) o
  | built t => {| flags := flags o; written := (written o ++ t)%list |}
  | endl => put (Text nl) o
  | m_boolalpha => reflag (set_boolalpha true) o
  | m_showbase => reflag (set_showbase true) o
  | hex => reflag (set_basefield Hex) o
  | dec => reflag (set_basefield Dec) o
  | fixed => reflag (set_floatfield Fixed) o
  | scientific => reflag (set_floatfield Scientific) o
  | defaultfloat => reflag (set_floatfield DefaultFloat) o
  | setprecision n => reflag (set_precision n) o
  end.

Definition insert_all (o : ostream) (items : list item) : ostream :=
  fold_left insert items o.

(** [std::cout << i1 << ... << in;] on the global stream: the flags it
    leaves stay in the process state. *)
Definition cout (items : list item) : M unit :=
  fun _ s =>
    let o := insert_all {| flags := cout_flags s; written := [] |} items in
    (Ret tt, {| cout_flags := flags o; cells := cells s |},
     map Out (written o)).

(** [printf]: straight to standard output, no stream flags involved. *)
Definition printf (t : list token) : M unit := emit (map Out t).

(** A [std::ostringstream] is a local stream with flags of its own. *)
Definition ostringstream : ostream := {| flags := ios_init; written := [] |}.

(** ** [std::vector<int>] *)

Module Vec.

Definition push_back (v : list Z) (x : Z) : list Z := (v ++ [x])%list.

(** Removes the last element (undefined on an empty vector in C++;
    here it leaves the empty vector). *)
Definition pop_back (v : list Z) : list Z := removelast v.

Definition size (v : list Z) : nat := List.length v.

(** [v.at(i)]: the element, or [std::out_of_range]. *)
Definition at_ (msg : nat -> nat -> string) (v : list Z) (i : nat) : M Z :=
  match nth_error v i with
  | Some x => ret x
  | None => throw (Std std.out_of_range (msg i (size v)))
  end.

(** [std::find(v.begin(), v.end(), x) - v.begin()]: the index of the
    first element equal to [x], or [size v] for [v.end()]. *)
Fixpoint find (v : list Z) (x : Z) : nat :=
  match v with
  | [] => 0%nat
  | y :: rest => if y =? x then 0%nat else S (find rest x)
  end.

Fixpoint insert_sorted (x : Z) (v : list Z) : list Z :=
  match v with
  | [] => [x]
  | y :: rest => if x <=? y then x :: v else y :: insert_sorted x rest
  end.

(** [std::sort(v.begin(), v.end())]: ascending order. *)
Definition sort (v : list Z) : list Z := fold_right insert_sorted [] v.

(** [std::transform] into a vector of the same size. *)
Definition transform (f : Z -> Z) (v : list Z) : list Z := map f v.

End Vec.

(** ** [std::map<std::string, int>]: the entries in ascending key order *)

Module StdMap.

Definition t := list (string * Z).

Definition empty : t := [].

(** [m[k] = v]: the entry is inserted at its place, or overwritten. *)
Fixpoint assign (k : string) (v : Z) (m : t) : t :=
  match m with
  | [] => [(k, v)]
  | (k', v') :: rest =>
      match String.compare k k' with
      | Lt => (k, v) :: m
      | Eq => (k, v) :: rest
      | Gt => (k', v') :: assign k v rest
      end
  end.

End StdMap.

(** ** Loops *)

(** [for (T x : xs) body]. *)
Fixpoint for_each {A} (xs : list A) (body : A -> M unit) : M unit :=
  match xs with
  | [] => ret tt
  | x :: rest => body x ;; for_each rest body
  end.

(** [while (i < bound) { body(i); i++; }], returning the final [i].  The
    loop runs [bound - i] times; [n] counts the iterations that are
    left. *)
Fixpoint while_below (n : nat) (bound : Z) (body : Z -> M unit) (i : Z) : M Z :=
  match n with
  | O => ret i
  | S n' =>
      if i <? bound
      then body i ;; while_below n' bound body (Int32.add i 1)
      else ret i
  end.

Definition while_lt (bound : Z) (body : Z -> M unit) (i : Z) : M Z :=
  while_below (Z.to_nat (bound - i)) bound body i.

(** [do { body(i); i++; } while (i < bound);]. *)
Definition do_while_lt (bound : Z) (body : Z -> M unit) (i : Z) : M Z :=
  body i ;; while_lt bound body (Int32.add i 1).

(** ** Formatted input: [std::istringstream] and [std::stoi] *)

Module Parse.

Definition is_space (c : ascii) : bool :=
  let n := nat_of_ascii c in
  Nat.eqb n 32 || (Nat.leb 9 n && Nat.leb n 13).

Definition digit (c : ascii) : option Z :=
  let n := nat_of_ascii c in
  if Nat.leb 48 n && Nat.leb n 57 then Some (Z.of_nat (n - 48)) else None.

Fixpoint skip_ws (s : string) : string :=
  match s with
  | String c rest => if is_space c then skip_ws rest else s
  | EmptyString => s
  end.

(** The longest run of digits at the front of [s]: its value after
    [acc], how many digits it has, and what follows. *)
Fixpoint digits (s : string) (acc : Z) (count : nat) : Z * nat * string :=
  match s with
  | String c rest =>
      match digit c with
      | Some d => digits rest (10 * acc + d) (S count)
      | None => (acc, count, s)
      end
  | EmptyString => (acc, count, s)
  end.

Definition sign (s : string) : bool * string :=
  match s with
  | String "-" rest => (true, rest)
  | String "+" rest => (false, rest)
  | _ => (false, s)
  end.

(** Leading white space, an optional sign, at least one digit. *)
Definition integer (s : string) : option (Z * string) :=
  let '(negative, s1) := sign (skip_ws s) in
  let '(v, n, rest) := digits s1 0 0%nat in
  if Nat.eqb n 0 then None
  else Some (if negative then - v else v, rest).

(** [10 ^ k] as a rational, for [k] of either sign. *)
Definition power_of_ten (k : Z) : Q :=
  match k with
  | Z0 => inject_Z 1
  | Zpos p => inject_Z (10 ^ Zpos p)
  | Zneg p => Qmake 1 (Z.to_pos (10 ^ Zpos p))
  end.

(** An exponent part after a mantissa: the letter, an optional sign and
    at least one digit give [Some] of the exponent; the letter without a
    digit after it makes the whole text no number ([None]); no letter is
    the exponent 0. *)
Definition exponent (s : string) : option (Z * string) :=
  match s with
  | String "e" s1 | String "E" s1 =>
      let '(negative, s2) := sign s1 in
      let '(v, n, rest) := digits s2 0 0%nat in
      if Nat.eqb n 0 then None
      else Some (if negative then - v else v, rest)
  | _ => Some (0, s)
  end.

(** Leading white space, an optional sign, digits with an optional
    fraction part and an optional exponent part ([123], [3.14], [.5],
    [1e3], [2.5E-2]), with at least one digit before the exponent.  The
    value is the decimal number read, which stands for the [double]
    nearest to it. *)
Definition real (s : string) : option (Q * string) :=
  let '(negative, s1) := sign (skip_ws s) in
  let '(whole, n, s2) := digits s1 0 0%nat in
  let '(num, k, m, s4) :=
    match s2 with
    | String "." s3 =>
        let '(v, k, rest) := digits s3 whole 0%nat in (v, k, (n + k)%nat, rest)
    | _ => (whole, 0%nat, n, s2)
    end in
  if Nat.eqb m 0 then None
  else
    match exponent s4 with
    | None => None
    | Some (x, rest) =>
        let q := Qred (Qmult (inject_Z num)
                             (power_of_ten (x - Z.of_nat k))) in
        Some (if negative then Qopp q else q, rest)
    end.

Fixpoint until_space (s : string) : string * string :=
  match s with
  | String c rest =>
      if is_space c then (EmptyString, s)
      else let '(w, r) := until_space rest in (String c w, r)
  | EmptyString => (EmptyString, s)
  end.

End Parse.

(** An input stream: what is left to read and the state bits that the
    extractions set ([badbit] is never set on a string stream). *)
Record istream := {
  buffer : string;
  eofbit : bool;
  failbit : bool
}.

Definition istringstream (s : string) : istream :=
  {| buffer := s; eofbit := false; failbit := false |}.

(** [good()]: no state bit is set. *)
Definition good (i : istream) : bool := negb (failbit i || eofbit i).

Definition at_end (s : string) : bool :=
  match s with
  | EmptyString => true
  | String _ _ => false
  end.

(** The sentry that every [>>] constructs first.  On a stream that is not
    good it sets [failbit].  Otherwise it skips white space; when that
    uses up the input it sets [eofbit] and [failbit].  In both cases the
    extraction does nothing more. *)
Definition sentry (i : istream) : bool * istream :=
  if good i then
    match Parse.skip_ws (buffer i) with
    | EmptyString =>
        (false, {| buffer := EmptyString; eofbit := true; failbit := true |})
    | rest => (true, {| buffer := rest; eofbit := false; failbit := false |})
    end
  else
    (false, {| buffer := buffer i; eofbit := eofbit i; failbit := true |}).

(** [iss >> x]: [Some v] is what is stored in [x], [None] leaves [x] as it
    was.  When the sentry fails nothing is stored.  A number that cannot
    be read stores 0 and sets [failbit], one that does not fit stores the
    nearest [int] and sets [failbit]; reading up to the end of the input
    sets [eofbit].  After a failure the stream is not read again (the
    program never clears the state), so what is left in the buffer then
    is of no consequence. *)
Definition extract_int (i : istream) : option Z * istream :=
  let '(ok, i1) := sentry i in
  if ok then
    match Parse.integer (buffer i1) with
    | Some (z, rest) =>
        if Int32.in_range z
        then (Some z,
              {| buffer := rest; eofbit := at_end rest; failbit := false |})
        else (Some (if z <? 0 then Int32.min_int else Int32.max_int),
              {| buffer := rest; eofbit := at_end rest; failbit := true |})
    | None =>
        (Some 0,
         {| buffer := buffer i1;
            eofbit := at_end (snd (Parse.sign (buffer i1)));
            failbit := true |})
    end
  else (None, i1).

Definition extract_double (i : istream) : option Q * istream :=
  let '(ok, i1) := sentry i in
  if ok then
    match Parse.real (buffer i1) with
    | Some (x, rest) =>
        (Some x,
         {| buffer := rest; eofbit := at_end rest; failbit := false |})
    | None =>
        (Some (inject_Z 0),
         {| buffer := buffer i1; eofbit := eofbit i1; failbit := true |})
    end
  else (None, i1).

(** For a string: the characters up to the next white space or the end
    of the input; after the sentry there is at least one. *)
Definition extract_string (i : istream) : option string * istream :=
  let '(ok, i1) := sentry i in
  if ok then
    let '(w, rest) := Parse.until_space (buffer i1) in
    (Some w, {| buffer := rest; eofbit := at_end rest; failbit := false |})
  else (None, i1).

(** A local that may not have been given a value yet; using it before
    that is undefined behaviour. *)
Definition assigned {A} (extracted : option A) (previous : option A)
  : option A :=
  match extracted with
  | Some v => Some v
  | None => previous
  end.

Definition value_of {A} (x : option A) : M A :=
  match x with
  | Some v => ret v
  | None => undefined
  end.

(** [std::stoi]: [std::invalid_argument] when no number starts the
    string, [std::out_of_range] when it does not fit an [int]. *)
Definition stoi (s : string) : M Z :=
  match Parse.integer s with
  | None => throw (Std std.invalid_argument "stoi")
  | Some (z, _) =>
      if Int32.in_range z then ret z
      else throw (Std std.out_of_range "stoi")
  end.

(** ** Classes [Person] and [Employee] *)

Definition Person_ctor (n : string) (a : Z) : M Person :=
  let this := {| name := n; age := a |} in
  cout [str "Person created: "; str (name this); endl] ;;
  ret this.

Definition Person_dtor (this : Person) : M unit :=
  cout [str "Person destroyed: "; str (name this); endl].

Definition Person_introduce (this : Person) : M unit :=
  cout [str "Hi, I'm "; str (name this); str " and I'm "; int (age this);
        str " years old."; endl].

Definition getName (this : Person) : string := name this.
Definition setName (n : string) (this : Person) : Person :=
  {| name := n; age := age this |}.
Definition getAge (this : Person) : Z := age this.
Definition setAge (a : Z) (this : Person) : Person :=
  {| name := name this; age := a |}.

(** [class Employee : public Person]: the base subobject and the member
    the class adds. *)
Record Employee := { person : Person; company : string }.

Definition Employee_ctor (n : string) (a : Z) (c : string) : M Employee :=
  base <- Person_ctor n a ;;
  let this := {| person := base; company := c |} in
  cout [str "Employee created at "; str (company this); endl] ;;
  ret this.

(** The implicit destructor: the member [company], then the base. *)
Definition Employee_dtor (this : Employee) : M unit :=
  Person_dtor (person this).

Definition Employee_introduce (this : Employee) : M unit :=
  cout [str "Hi, I'm "; str (getName (person this)); str ", ";
        int (getAge (person this)); str " years old, and I work at ";
        str (company this); str "."; endl].

(** *** Member lookup

    No member function is virtual, so a call [x.f()] is resolved from the
    static type of [x]: the class itself if it declares [f], otherwise
    its base class. *)

Inductive class := CPerson | CEmployee.

Inductive member := introduce | get_name | set_name | get_age | set_age.

Definition declares (c : class) (m : member) : bool :=
  match c, m with
  | CPerson, _ => true
  | CEmployee, introduce => true
  | CEmployee, _ => false
  end.

Definition base_of (c : class) : option class :=
  match c with
  | CEmployee => Some CPerson
  | CPerson => None
  end.

(** The class whose declaration of [m] a call on a [c] object uses. *)
Definition resolve (c : class) (m : member) : option class :=
  if declares c m then Some c
  else match base_of c with
       | Some b => if declares b m then Some b else None
       | None => None
       end.

Definition instance (c : class) : Type :=
  match c with
  | CPerson => Person
  | CEmployee => Employee
  end.

(** Conversion of an object to (a base of) its class. *)
Definition upcast (from to : class) : instance from -> option (instance to) :=
  match from, to return instance from -> option (instance to) with
  | CPerson, CPerson => fun p => Some p
  | CEmployee, CEmployee => fun e => Some e
  | CEmployee, CPerson => fun e => Some (person e)
  | CPerson, CEmployee => fun _ => None
  end.

Definition introduce_body (c : class) : instance c -> M unit :=
  match c return instance c -> M unit with
  | CPerson => Person_introduce
  | CEmployee => Employee_introduce
  end.

(** [x.introduce()] for [x] of static type [c]. *)
Definition call_introduce (c : class) (x : instance c) : M unit :=
  match resolve c introduce with
  | Some d =>
      match upcast c d x with
      | Some this => introduce_body d this
      | None => undefined
      end
  | None => undefined
  end.

Definition new_Person (n : string) (a : Z) : M loc :=
  p <- Person_ctor n a ;;
  alloc (PersonCell p).

(** [delete p], and the release of the only [shared_ptr] to the object:
    the destructor runs, then the storage is given back. *)
Definition delete_Person (l : loc) : M unit :=
  this <- load_person l ;;
  Person_dtor this ;;
  free l.

(** ** The routines of main.cpp *)

Definition demonstrateBasicSyntax : M unit :=
  enter DemonstrateBasicSyntax ;;
  cout [str (nl ++ "----- Basic Syntax -----" ++ nl)] ;;
  cout [str "Hello, World!"; endl].

Definition demonstrateVariablesAndTypes : M unit :=
  enter DemonstrateVariablesAndTypes ;;
  cout [str (nl ++ "----- Variables and Types -----" ++ nl)] ;;
  let integerValue := 42 in
  let floatingPoint := (314159 # 100000)%Q in
  let singleCharacter := "A"%char in
  let booleanValue := true in
  let text := "Hello, C++" in
  let unchangeable := 100 in
  let wideText := "Wide character string" in
  cout [str "Integer: "; int integerValue; endl] ;;
  cout [str "Double: "; dbl floatingPoint; endl] ;;
  cout [str "Char: "; chr singleCharacter; endl] ;;
  cout [str "Boolean: "; m_boolalpha; boolean booleanValue; endl] ;;
  cout [str "String: "; str text; endl] ;;
  let x := 5 in
  let y := Qred (inject_Z x / inject_Z 2)%Q in
  cout [str "5/2 with conversion: "; dbl y; endl] ;;
  cout [str "5/2 without conversion: "; int (Int32.div 5 2); endl].

Definition demonstrateControlFlow : M unit :=
  enter DemonstrateControlFlow ;;
  cout [str (nl ++ "----- Control Flow -----" ++ nl)] ;;
  let x := 10 in
  (if x >? 5 then cout [str "x is greater than 5"; endl]
   else if x =? 5 then cout [str "x is equal to 5"; endl]
   else cout [str "x is less than 5"; endl]) ;;
  match x with
  | 5 => cout [str "x is 5"; endl]
  | 10 => cout [str "x is 10"; endl]
  | _ => cout [str "x is neither 5 nor 10"; endl]
  end ;;
  cout [str "For loop: "] ;;
  _ <- while_lt 5 (fun i => cout [int i; str " "]) 0 ;;
  cout [endl] ;;
  let numbers := [1; 2; 3; 4; 5] in
  cout [str "Range-based for loop: "] ;;
  for_each numbers (fun num => cout [int num; str " "]) ;;
  cout [endl] ;;
  cout [str "While loop: "] ;;
  i <- while_lt 5 (fun i => cout [int i; str " "]) 0 ;;
  cout [endl] ;;
  cout [str "Do-while loop: "] ;;
  i <- do_while_lt 5 (fun i => cout [int i; str " "]) 0 ;;
  cout [endl].

Definition demonstrateFunctions (value : Z) : M unit :=
  enter DemonstrateFunctions ;;
  cout [str (nl ++ "----- Functions -----" ++ nl)] ;;
  cout [str "Function parameter: "; int value; endl] ;;
  (let localVar := 100 in
   cout [str "Inside local scope: "; int localVar; endl]) ;;
  let defaultParamFunction := fun (a b : option Z) =>
    let a := match a with Some v => v | None => 1 end in
    let b := match b with Some v => v | None => 2 end in
    Int32.add a b in
  cout [str "Default params (no args): ";
        int (defaultParamFunction None None); endl] ;;
  cout [str "Default params (one arg): ";
        int (defaultParamFunction (Some 10) None); endl] ;;
  cout [str "Default params (two args): ";
        int (defaultParamFunction (Some 10) (Some 20)); endl].

Definition returnSum (a b : Z) : Z := Int32.add a b.

Definition demonstrateReferencesAndPointers : M unit :=
  enter DemonstrateReferencesAndPointers ;;
  cout [str (nl ++ "----- References and Pointers -----" ++ nl)] ;;
  original <- alloc (IntCell 42) ;;
  let reference := original in
  v <- load_int original ;;
  cout [str "Original: "; int v; endl] ;;
  v <- load_int reference ;;
  cout [str "Reference: "; int v; endl] ;;
  store_int reference 100 ;;
  v <- load_int original ;;
  cout [str "After modifying reference, original: "; int v; endl] ;;
  value <- alloc (IntCell 42) ;;
  let pointer := value in
  v <- load_int value ;;
  cout [str "Value: "; int v; endl] ;;
  a <- address_of pointer ;;
  cout [str "Pointer address: "; ptr a; endl] ;;
  v <- load_int pointer ;;
  cout [str "Dereferenced pointer: "; int v; endl] ;;
  store_int pointer 200 ;;
  v <- load_int value ;;
  cout [str "After modifying pointer, value: "; int v; endl] ;;
  smartPtr <- alloc (IntCell 42) ;;
  v <- load_int smartPtr ;;
  cout [str "Smart pointer value: "; int v; endl] ;;
  free smartPtr ;;
  free value ;;
  free original.

Definition demonstrateClasses : M unit :=
  enter DemonstrateClasses ;;
  cout [str (nl ++ "----- Classes and OOP -----" ++ nl)] ;;
  alice <- Person_ctor "Alice" 30 ;;
  call_introduce CPerson alice ;;
  bob <- new_Person "Bob" 25 ;;
  this <- load_person bob ;;
  call_introduce CPerson this ;;
  delete_Person bob ;;
  charlie <- new_Person "Charlie" 35 ;;
  this <- load_person charlie ;;
  call_introduce CPerson this ;;
  dave <- Employee_ctor "Dave" 40 "Acme Inc" ;;
  call_introduce CEmployee dave ;;
  Employee_dtor dave ;;
  delete_Person charlie ;;
  Person_dtor alice.

(** The vector of [demonstrateStl] as declared, and as it is after
    [push_back(60)] and [pop_back()]. *)
Definition stl_numbers_declared : list Z := [10; 20; 30; 40; 50].

Definition stl_numbers : list Z :=
  Vec.pop_back (Vec.push_back stl_numbers_declared 60).

(** The try block of [demonstrateErrorHandling], as a function of the
    values of its locals [numerator], [denominator], [vec] and of the
    index passed to [vec.at]. *)
Definition division_attempt (msg : nat -> nat -> string)
    (numerator denominator : Z) (vec : list Z) (i : nat) : M unit :=
  cout [str "Attempting division..."; endl] ;;
  (if denominator =? 0
   then throw (Std std.runtime_error "Division by zero!")
   else ret tt) ;;
  result <- divide numerator denominator ;;
  cout [str "Result: "; int result; endl] ;;
  cout [str "vec[1]: "] ;;
  x <- Vec.at_ msg vec i ;;
  cout [int x; endl].

(** The four handlers, in the order of the source. *)
Definition error_handlers : list handler :=
  [ catch_ref std.runtime_error
      (fun what => cout [str "Runtime error: "; str what; endl]);
    catch_ref std.out_of_range
      (fun what => cout [str "Out of range error: "; str what; endl]);
    catch_ref std.exception
      (fun what => cout [str "Standard exception: "; str what; endl]);
    catch_all (cout [str "Unknown exception occurred"; endl]) ].

(** [demonstrateErrorHandling] around a given try block. *)
Definition error_handling_of (try_block : M unit) : M unit :=
  enter DemonstrateErrorHandling ;;
  cout [str (nl ++ "----- Error Handling -----" ++ nl)] ;;
  try_catch try_block error_handlers.

(** [std::format("{:#x}", z)]. *)
Definition format_hex_alt (z : Z) : string :=
  (if z <? 0 then "-" else "") ++ "0x" ++ hexadecimal (Z.abs z).

Section Program.

Variable impl : platform.

Definition demonstrateModernCpp : M unit :=
  enter DemonstrateModernCpp ;;
  cout [str (nl ++ "----- Modern C++ Features -----" ++ nl)] ;;
  let value := 42 in
  let text := "hello" in
  let pi := (314159 # 100000)%Q in
  cout [str "Auto variables: "; int value; str ", "; str text; str ", ";
        dbl pi; endl] ;;
  let add := fun a b => Int32.add a b in
  cout [str "Lambda result: "; int (add 3 4); endl] ;;
  let multiplier := 10 in
  let multiply := fun x => Int32.mul x multiplier in
  cout [str "Lambda with capture: "; int (multiply 5); endl] ;;
  let source := "Original string" in
  let destination := source in
  let source := moved_from impl in
  cout [str "After move, destination: "; str destination; endl] ;;
  cout [str "After move, source: "; str source; endl] ;;
  let numbers := [1; 2; 3; 4; 5] in
  cout [str "Initializer list: "] ;;
  for_each numbers (fun n => cout [int n; str " "]) ;;
  cout [endl].

Definition demonstrateStl : M unit :=
  enter DemonstrateStl ;;
  cout [str (nl ++ "----- Standard Template Library -----" ++ nl)] ;;
  let numbers := stl_numbers in
  cout [str "Vector elements: "] ;;
  for_each numbers (fun num => cout [int num; str " "]) ;;
  cout [endl] ;;
  let ages := StdMap.empty in
  let ages := StdMap.assign "Alice" 30 ages in
  let ages := StdMap.assign "Bob" 25 ages in
  let ages := StdMap.assign "Charlie" 35 ages in
  cout [str "Map elements:"; endl] ;;
  for_each ages
    (fun pair => cout [str (fst pair); str ": "; int (snd pair); endl]) ;;
  cout [str "Find 30 in vector: "] ;;
  let it := Vec.find numbers 30 in
  (if negb (Nat.eqb it (Vec.size numbers))
   then cout [str "Found at position "; int (Z.of_nat it); endl]
   else cout [str "Not found"; endl]) ;;
  let numbers := Vec.sort numbers in
  cout [str "Sorted vector: "] ;;
  for_each numbers (fun num => cout [int num; str " "]) ;;
  cout [endl] ;;
  let doubled := Vec.transform (fun x => Int32.mul x 2) numbers in
  cout [str "Doubled vector: "] ;;
  for_each doubled (fun num => cout [int num; str " "]) ;;
  cout [endl].

Definition demonstrateErrorHandling : M unit :=
  error_handling_of (division_attempt (range_check impl) 10 2 [1; 2; 3] 1).

Definition demonstrateModernIO : M unit :=
  enter DemonstrateModernIO ;;
  cout [str (nl ++ "----- Modern I/O Operations -----" ++ nl)] ;;
  cout [str ("===== Modern Output Methods =====" ++ nl)] ;;
  cout [str "1. Traditional std::cout with concatenation"; endl] ;;
  let num := 42 in
  let pi := (314159265359 # 100000000000)%Q in
  cout [str "2. Formatted output with manipulators:"; endl] ;;
  cout [str "   Hex: "; hex; m_showbase; int num; endl] ;;
  cout [str "   Decimal: "; dec; int num; endl] ;;
  cout [str "   Fixed precision: "; fixed; setprecision 2; dbl pi; endl] ;;
  cout [str "   Scientific: "; scientific; dbl pi; endl] ;;
  cout [defaultfloat; setprecision 6] ;;
  cout [str "3. Using string streams:"; endl] ;;
  let oss := ostringstream in
  let oss := insert_all oss
               [str "String stream allows building complex strings: "] in
  let oss := insert_all oss
               [str "Value="; int num; str ", Pi="; fixed; setprecision 2;
                dbl pi] in
  cout [str "   "; built (written oss); endl] ;;
  cout [str "4. printf-style formatting:"; endl] ;;
  printf [Text "   Classic printf: num="; Text (decimal num);
          Text ", pi="; Real Fixed 2 pi; Text nl] ;;
  (if cpp20 impl
   then
     cout [str "5. C++20 std::format (like C# string interpolation):";
           endl] ;;
     cout [str "   ";
           built [Text "Number: "; Text (decimal num); Text ", Pi: ";
                  Real Fixed 2 pi];
           endl] ;;
     cout [str "   ";
           built [Text "Hex: "; Text (format_hex_alt num);
                  Text ", Decimal: "; Text (decimal num); Text ", Pi: ";
                  Real Fixed 3 pi];
           endl]
   else
     cout [str "5. C++20 std::format not available with current compiler settings";
           endl]) ;;
  cout [str ("6. Modern printing without std::endl (better performance)"
             ++ nl)] ;;
  let sv := "Efficient string_view for print operations" in
  cout [str "7. Using string_view: "; str sv; str nl] ;;
  cout [str (nl ++ "===== Modern Input Methods =====" ++ nl)] ;;
  cout [str "1. Traditional std::cin (uncomment to use):"; endl] ;;
  cout [str "2. Reading lines with std::getline (uncomment to use):"; endl] ;;
  cout [str "3. Input with validation (uncomment to use):"; endl] ;;
  cout [str "4. Using string streams for parsing:"; endl] ;;
  let data := "123 3.14 Hello" in
  let iss := istringstream data in
  let parsed_int : option Z := None in
  let parsed_double : option Q := None in
  let parsed_string := Some EmptyString in
  let '(r, iss) := extract_int iss in
  let parsed_int := assigned r parsed_int in
  let '(r, iss) := extract_double iss in
  let parsed_double := assigned r parsed_double in
  let '(r, iss) := extract_string iss in
  let parsed_string := assigned r parsed_string in
  v <- value_of parsed_int ;;
  cout [str "   Parsed int: "; int v; endl] ;;
  v <- value_of parsed_double ;;
  cout [str "   Parsed double: "; dbl v; endl] ;;
  v <- value_of parsed_string ;;
  cout [str "   Parsed string: "; str v; endl] ;;
  cout [str "5. Modern parsing approaches:"; endl] ;;
  let number_str := "42" in
  converted <- stoi number_str ;;
  cout [str "   String to int: "; int converted; endl] ;;
  cout [str "6. Modern I/O best practices:"; endl] ;;
  cout [str ("   • Prefer '\n' over std::endl when flushing isn't needed"
             ++ nl)] ;;
  cout [str ("   • Use string_view when not modifying strings" ++ nl)] ;;
  cout [str ("   • Use std::format in C++20 for readable formatting" ++ nl)] ;;
  cout [str ("   • Consider using <charconv> for fast numeric conversions"
             ++ nl)] ;;
  cout [str ("   • Always validate user input" ++ nl)].

(** [main], with the call of [demonstrateErrorHandling] as a
    parameter. *)
Definition main_calling (errorHandling : M unit) : M Z :=
  cout [str "=============================="; endl] ;;
  cout [str "C++ Tutorial for C# and JS Developers"; endl] ;;
  cout [str "=============================="; endl] ;;
  demonstrateBasicSyntax ;;
  demonstrateVariablesAndTypes ;;
  demonstrateControlFlow ;;
  demonstrateFunctions 42 ;;
  cout [str "Sum: "; int (returnSum 5 7); endl] ;;
  demonstrateReferencesAndPointers ;;
  demonstrateClasses ;;
  demonstrateModernCpp ;;
  demonstrateStl ;;
  errorHandling ;;
  demonstrateModernIO ;;
  cout [str (nl ++ "Tutorial completed successfully!"); endl] ;;
  ret 0.

Definition main : M Z := main_calling demonstrateErrorHandling.

(** The call of a demonstration routine as [main] makes it. *)
Definition call (r : routine) : M unit :=
  match r with
  | DemonstrateBasicSyntax => demonstrateBasicSyntax
  | DemonstrateVariablesAndTypes => demonstrateVariablesAndTypes
  | DemonstrateControlFlow => demonstrateControlFlow
  | DemonstrateFunctions => demonstrateFunctions 42
  | DemonstrateReferencesAndPointers => demonstrateReferencesAndPointers
  | DemonstrateClasses => demonstrateClasses
  | DemonstrateModernCpp => demonstrateModernCpp
  | DemonstrateStl => demonstrateStl
  | DemonstrateErrorHandling => demonstrateErrorHandling
  | DemonstrateModernIO => demonstrateModernIO
  end.

(** Routines called one after the other, as long as each returns. *)
Fixpoint call_all (rs : list routine) : M unit :=
  match rs with
  | [] => ret tt
  | r :: rest => call r ;; call_all rest
  end.

End Program.

(** The process as the system starts it. *)
Definition run (impl : platform) (e : environment)
  : outcome Z * state * list event :=
  main impl e initial_state.

(** ** Observing a run *)

Definition routine_eqb (r r' : routine) : bool :=
  match r, r' with
  | DemonstrateBasicSyntax, DemonstrateBasicSyntax
  | DemonstrateVariablesAndTypes, DemonstrateVariablesAndTypes
  | DemonstrateControlFlow, DemonstrateControlFlow
  | DemonstrateFunctions, DemonstrateFunctions
  | DemonstrateReferencesAndPointers, DemonstrateReferencesAndPointers
  | DemonstrateClasses, DemonstrateClasses
  | DemonstrateModernCpp, DemonstrateModernCpp
  | DemonstrateStl, DemonstrateStl
  | DemonstrateErrorHandling, DemonstrateErrorHandling
  | DemonstrateModernIO, DemonstrateModernIO => true
  | _, _ => false
  end.

(** Standard output: what was written, in order. *)
Fixpoint stdout (evs : list event) : list token :=
  match evs with
  | [] => []
  | Out t :: rest => t :: stdout rest
  | Enter _ :: rest => stdout rest
  end.

(** The routines entered, in order. *)
Fixpoint calls (evs : list event) : list routine :=
  match evs with
  | [] => []
  | Enter r :: rest => r :: calls rest
  | Out _ :: rest => calls rest
  end.

Definition times_called (r : routine) (evs : list event) : nat :=
  List.length (filter (routine_eqb r) (calls evs)).

(** The events that follow the first entry of [r]. *)
Fixpoint after_entry (r : routine) (evs : list event) : list event :=
  match evs with
  | [] => []
  | Enter r' :: rest => if routine_eqb r r' then rest else after_entry r rest
  | Out _ :: rest => after_entry r rest
  end.

Fixpoint until_entry (evs : list event) : list token :=
  match evs with
  | Out t :: rest => t :: until_entry rest
  | _ => []
  end.

(** What is written from the entry of [r] until the next routine is
    entered (or the run ends). *)
Definition written_from (r : routine) (evs : list event) : list token :=
  until_entry (after_entry r evs).

Definition style_eqb (a b : float_style) : bool :=
  match a, b with
  | DefaultFloat, DefaultFloat | Fixed, Fixed | Scientific, Scientific => true
  | _, _ => false
  end.

Definition token_eqb (a b : token) : bool :=
  match a, b with
  | Text s, Text s' => String.eqb s s'
  | Real f p x, Real f' p' x' =>
      style_eqb f f' && Nat.eqb p p' && (Qnum x =? Qnum x')
      && Pos.eqb (Qden x) (Qden x')
  | Pointer z, Pointer z' => z =? z'
  | _, _ => false
  end.

(** [needle] stripped from the front of [hay]. *)
Fixpoint strip_prefix (needle hay : list token) : option (list token) :=
  match needle, hay with
  | [], _ => Some hay
  | n :: needle', h :: hay' =>
      if token_eqb n h then strip_prefix needle' hay' else None
  | _ :: _, [] => None
  end.

(** The first place where [needle] occurs in [hay]: what is before it
    and what is after it. *)
Fixpoint split_on (needle hay : list token)
  : option (list token * list token) :=
  match strip_prefix needle hay with
  | Some post => Some ([], post)
  | None =>
      match hay with
      | [] => None
      | h :: hay' =>
          match split_on needle hay' with
          | Some (pre, post) => Some (h :: pre, post)
          | None => None
          end
      end
  end.

Definition occurs (needle hay : list token) : bool :=
  match split_on needle hay with
  | Some _ => true
  | None => false
  end.

(** Some text token of the run is exactly [s]. *)
Definition wrote (s : string) (evs : list event) : bool :=
  existsb (fun t => match t with Text s' => String.eqb s s' | _ => false end)
          (stdout evs).

Definition is_pointer (t : token) : bool :=
  match t with
  | Pointer _ => true
  | _ => false
  end.

(** The tokens before the first pointer, and those after it. *)
Fixpoint before_pointer (ts : list token) : list token :=
  match ts with
  | [] => []
  | t :: rest => if is_pointer t then [] else t :: before_pointer rest
  end.

Fixpoint after_pointer (ts : list token) : list token :=
  match ts with
  | [] => []
  | t :: rest => if is_pointer t then rest else after_pointer rest
  end.

(** The characters on the console, given the library's conversions of
    floating-point values and of pointers. *)
Definition show_token (show_real : float_style -> nat -> Q -> string)
    (show_pointer : Z -> string) (t : token) : string :=
  match t with
  | Text s => s
  | Real f p x => show_real f p x
  | Pointer a => show_pointer a
  end.

Fixpoint render (show_real : float_style -> nat -> Q -> string)
    (show_pointer : Z -> string) (ts : list token) : string :=
  match ts with
  | [] => EmptyString
  | t :: rest =>
      show_token show_real show_pointer t
      ++ render show_real show_pointer rest
  end.

(** ** Properties of a state at a routine boundary *)

(** Numbers print as a fresh stream prints them. *)
Definition neutral (f : ios) : Prop :=
  basefield f = Dec /\ floatfield f = DefaultFloat /\ precision f = 6%nat.

(** The location [fresh] gives the local [value] of
    [demonstrateReferencesAndPointers] when the store is empty at the
    routine's entry: [original] is at 0. *)
Definition value_loc : loc := 1%nat.

(** The state in which [main] calls every routine: numbers print as on a
    fresh stream and no addressable object is alive. *)
Definition boundary (s : state) : Prop :=
  neutral (cout_flags s) /\ cells s = [].

(** The flags of [std::cout] when routine [r] returns, from its flags [f]
    when [r] was called. *)
Definition flags_left_by (r : routine) (f : ios) : ios :=
  match r with
  | DemonstrateVariablesAndTypes => set_boolalpha true f
  | DemonstrateModernIO => set_showbase true f
  | _ => f
  end.

Fixpoint first_pointer (ts : list token) : option Z :=
  match ts with
  | [] => None
  | Pointer a :: _ => Some a
  | _ :: rest => first_pointer rest
  end.

(** The [Employee] object of [demonstrateClasses], once constructed. *)
Definition dave : Employee :=
  {| person := {| name := "Dave"; age := 40 |}; company := "Acme Inc" |}.

(** ** Reference builds and environments *)

Definition gcc_cpp17 : platform :=
  {| cpp20 := false;
     moved_from := "";
     range_check := fun i n =>
       "vector::_M_range_check: __n (which is " ++ decimal (Z.of_nat i)
       ++ ") >= this->size() (which is " ++ decimal (Z.of_nat n) ++ ")" |}.

Definition terminal_run : environment :=
  {| stdin := ""; argv := ["./main"];
     layout := fun l => 140737488346000 + 4 * Z.of_nat l |}.

(** Same placement of objects, other input and arguments. *)
Definition piped_run : environment :=
  {| stdin := "7" ++ nl; argv := ["./main"; "--verbose"];
     layout := layout terminal_run |}.

(** Other input and arguments, and the stack somewhere else. *)
Definition relocated_run : environment :=
  {| stdin := "7" ++ nl; argv := ["./main"; "--verbose"];
     layout := fun l => 140722000000000 + 4 * Z.of_nat l |}.

(** ** What the claims about reported errors say is printed *)

(** The error message of the division example as the handler for
    [std::runtime_error] prints it. *)
Definition division_error_report : list token :=
  [Text "Runtime error: "; Text "Division by zero!"; Text nl].

Definition division_error_reported (evs : list event) : Prop :=
  exists pre post,
    stdout evs = (pre ++ division_error_report ++ post)%list.


(** The heading every run of [demonstrateErrorHandling] starts with. *)
Definition error_handling_heading : list event :=
  [Enter DemonstrateErrorHandling;
   Out (Text (nl ++ "----- Error Handling -----" ++ nl))].

(** ** Notions used to state further properties *)

(** [n] consecutive [int] values from [i] on. *)
Fixpoint count_up (i : Z) (n : nat) : list Z :=
  match n with
  | O => []
  | S n' => i :: count_up (i + 1) n'
  end.

(** What the print loops of the program write for the values [xs] on a
    stream with flags [f]: each value, then a space. *)
Definition spaced (f : ios) (xs : list Z) : list event :=
  flat_map (fun x => [Out (Text (show_int f x)); Out (Text " ")]) xs.

Definition ascending (v : list Z) : Prop := Sorted Z.le v.

(** The keys of a map are in strictly ascending order. *)
Definition keys_ascending (m : StdMap.t) : Prop :=
  Sorted (fun a b => String.compare (fst a) (fst b) = Lt) m.

(** The value of the digits [d] read after the value [acc]. *)
Fixpoint uint_after (d : Decimal.uint) (acc : Z) : Z :=
  match d with
  | Decimal.Nil => acc
  | Decimal.D0 l => uint_after l (10 * acc + 0)
  | Decimal.D1 l => uint_after l (10 * acc + 1)
  | Decimal.D2 l => uint_after l (10 * acc + 2)
  | Decimal.D3 l => uint_after l (10 * acc + 3)
  | Decimal.D4 l => uint_after l (10 * acc + 4)
  | Decimal.D5 l => uint_after l (10 * acc + 5)
  | Decimal.D6 l => uint_after l (10 * acc + 6)
  | Decimal.D7 l => uint_after l (10 * acc + 7)
  | Decimal.D8 l => uint_after l (10 * acc + 8)
  | Decimal.D9 l => uint_after l (10 * acc + 9)
  end.

(** The flags of [std::cout] when routine [r] returns, from any flags [f]
    at its call. *)
Definition flags_after (r : routine) (f : ios) : ios :=
  match r with
  | DemonstrateVariablesAndTypes => set_boolalpha true f
  | DemonstrateModernIO =>
      {| boolalpha := boolalpha f; showbase := true; basefield := Dec;
         floatfield := DefaultFloat; precision := 6 |}
  | _ => f
  end.



(** * Properties *)

(** ** The model of the loops and containers follows the C++ forms *)

Lemma while_below_enough (n : nat) (bound : Z) (body : Z -> M unit) (i : Z) :
  bound <= Int32.max_int -> Int32.min_int <= i ->
  (Z.to_nat (bound - i) <= n)%nat ->
  while_below n bound body i = while_lt bound body i.
Proof.
  unfold while_lt. revert i.
  induction n as [|n IH]; intros i Hb Hi Hn.
  - replace (Z.to_nat (bound - i)) with 0%nat by lia. reflexivity.
  - destruct (Z.to_nat (bound - i)) as [|k] eqn:E.
    + simpl. destruct (Z.ltb_spec i bound); [lia | reflexivity].
    + simpl. destruct (Z.ltb_spec i bound); [| reflexivity].
      assert (Hadd : Int32.add i 1 = i + 1).
      { unfold Int32.add, Int32.wrap, Int32.max_int, Int32.min_int in *.
        rewrite Z.mod_small; lia. }
      rewrite Hadd.
      assert (Hk : k = Z.to_nat (bound - (i + 1))) by lia.
      rewrite (IH (i + 1)) by (unfold Int32.min_int in *; lia).
      rewrite Hk. reflexivity.
Qed.

(** [while (i < bound) { body(i); i++; }] runs the body and goes round
    again when [i < bound], and is over otherwise. *)
Lemma while_lt_unfold (bound : Z) (body : Z -> M unit) (i : Z) :
  bound <= Int32.max_int -> Int32.min_int <= i ->
  while_lt bound body i =
  if i <? bound
  then body i ;; while_lt bound body (Int32.add i 1)
  else ret i.
Proof.
  intros Hb Hi. unfold while_lt at 1.
  destruct (Z.ltb_spec i bound) as [Hlt | Hge].
  - destruct (Z.to_nat (bound - i)) as [|k] eqn:E; [lia |].
    simpl. destruct (Z.ltb_spec i bound); [| lia].
    assert (Hadd : Int32.add i 1 = i + 1).
    { unfold Int32.add, Int32.wrap, Int32.max_int, Int32.min_int in *.
      rewrite Z.mod_small; lia. }
    rewrite Hadd.
    rewrite (while_below_enough k bound body (i + 1));
      unfold Int32.min_int in *; try lia.
    reflexivity.
  - replace (Z.to_nat (bound - i)) with 0%nat by lia. reflexivity.
Qed.

Lemma find_bound (v : list Z) (x : Z) : (Vec.find v x <= Vec.size v)%nat.
Proof.
  induction v as [|y v IH]; simpl; [lia |].
  destruct (y =? x); unfold Vec.size in *; simpl; lia.
Qed.

(** [find] gives the position of an element equal to [x], and the one
    past the end exactly when there is none. *)
Lemma find_spec (v : list Z) (x : Z) :
  (Vec.find v x < Vec.size v)%nat -> nth_error v (Vec.find v x) = Some x.
Proof.
  induction v as [|y v IH]; unfold Vec.size in *; simpl; [lia |].
  destruct (Z.eqb_spec y x) as [-> | _]; [reflexivity |].
  intros H. simpl. apply IH. lia.
Qed.

(** ** Token comparison and search *)

Lemma token_eqb_eq (a b : token) : token_eqb a b = true -> a = b.
Proof.
  destruct a as [s | f p x | z], b as [s' | f' p' x' | z']; simpl;
    try discriminate.
  - intros H. apply String.eqb_eq in H. now subst.
  - intros H.
    apply andb_true_iff in H. destruct H as [H Hd].
    apply andb_true_iff in H. destruct H as [H Hn].
    apply andb_true_iff in H. destruct H as [Hf Hp].
    apply Nat.eqb_eq in Hp. apply Z.eqb_eq in Hn. apply Pos.eqb_eq in Hd.
    destruct x, x'; simpl in *; subst.
    destruct f, f'; simpl in Hf; try discriminate; reflexivity.
  - intros H. apply Z.eqb_eq in H. now subst.
Qed.

Lemma strip_prefix_sound (needle hay post : list token) :
  strip_prefix needle hay = Some post -> hay = (needle ++ post)%list.
Proof.
  revert hay.
  induction needle as [|n needle IH]; intros hay; simpl.
  - intros H. now inversion H.
  - destruct hay as [|h hay]; [discriminate |].
    destruct (token_eqb n h) eqn:E; [| discriminate].
    intros H. apply token_eqb_eq in E. subst h.
    now rewrite (IH _ H).
Qed.

Lemma split_on_sound (needle hay pre post : list token) :
  split_on needle hay = Some (pre, post) ->
  hay = (pre ++ needle ++ post)%list.
Proof.
  revert pre.
  induction hay as [|h hay IH]; intros pre; simpl.
  - destruct (strip_prefix needle []) as [p|] eqn:E; [| discriminate].
    intros H. inversion H; subst. simpl. now apply strip_prefix_sound.
  - destruct (strip_prefix needle (h :: hay)) as [p|] eqn:E.
    + intros H. inversion H; subst. simpl. now apply strip_prefix_sound.
    + destruct (split_on needle hay) as [[pre' post']|]; [| discriminate].
      intros H. inversion H; subst. simpl. f_equal. now apply IH.
Qed.

Lemma occurs_sound (needle hay : list token) :
  occurs needle hay = true ->
  exists pre post, hay = (pre ++ needle ++ post)%list.
Proof.
  unfold occurs.
  destruct (split_on needle hay) as [[pre post]|] eqn:E; [| discriminate].
  intros _. exists pre, post. now apply split_on_sound.
Qed.

Lemma wrote_complete (s : string) (evs : list event) :
  In (Text s) (stdout evs) -> wrote s evs = true.
Proof.
  intros H. unfold wrote. apply existsb_exists.
  exists (Text s). split; [exact H | apply String.eqb_refl].
Qed.

Lemma render_app show_real show_pointer (a b : list token) :
  render show_real show_pointer (a ++ b) =
  (render show_real show_pointer a ++ render show_real show_pointer b)%string.
Proof.
  induction a as [|t a IH]; simpl; [reflexivity |].
  rewrite IH. clear IH.
  induction (show_token show_real show_pointer t) as [|c s IHs]; simpl;
    [reflexivity | now rewrite IHs].
Qed.

Lemma before_pointer_clean (ts : list token) :
  Forall (fun t => is_pointer t = false) (before_pointer ts).
Proof.
  induction ts as [|t ts IH]; simpl; [constructor |].
  destruct (is_pointer t) eqn:E; [constructor | now constructor].
Qed.

Lemma token_eqb_refl (t : token) : token_eqb t t = true.
Proof.
  destruct t as [s | f p x | z]; simpl.
  - apply String.eqb_refl.
  - rewrite Nat.eqb_refl, Z.eqb_refl, Pos.eqb_refl. now destruct f.
  - apply Z.eqb_refl.
Qed.

Lemma strip_prefix_app (needle post : list token) :
  strip_prefix needle (needle ++ post) = Some post.
Proof.
  induction needle as [|n needle IH]; simpl; [reflexivity |].
  now rewrite token_eqb_refl.
Qed.

Lemma split_on_head (needle hay post : list token) :
  strip_prefix needle hay = Some post ->
  split_on needle hay = Some ([], post).
Proof. destruct hay; simpl; intros ->; reflexivity. Qed.

Lemma occurs_complete (needle pre post : list token) :
  occurs needle (pre ++ needle ++ post) = true.
Proof.
  unfold occurs.
  induction pre as [|h pre IH]; simpl.
  - now rewrite (split_on_head _ _ _ (strip_prefix_app needle post)).
  - destruct (strip_prefix needle (h :: pre ++ needle ++ post));
      [reflexivity |].
    destruct (split_on needle (pre ++ needle ++ post)) as [[? ?]|];
      [reflexivity | discriminate].
Qed.

(** ** Every routine at a routine boundary *)

Lemma routine_frame (impl : platform) (r : routine) (e : environment)
    (s : state) :
  boundary s ->
  result_of (call impl r e s) = Ret tt /\
  state_of (call impl r e s) =
    {| cout_flags := flags_left_by r (cout_flags s); cells := [] |} /\
  events_of (call impl r e s) = events_of (call impl r e initial_state).
Proof.
  destruct s as [[ba sb bf ff pr] cs].
  intros [(Hb & Hf & Hp) Hc]. simpl in *. subst.
  destruct impl as [c20 mf rc].
  destruct r, ba, sb, c20; vm_compute; repeat split.
Qed.

Lemma flags_left_neutral (r : routine) (f : ios) :
  neutral f -> neutral (flags_left_by r f).
Proof. intros (? & ? & ?). destruct r; simpl; repeat split; assumption. Qed.

Lemma call_all_boundary (impl : platform) (rs : list routine)
    (e : environment) (s : state) :
  boundary s ->
  result_of (call_all impl rs e s) = Ret tt /\
  boundary (state_of (call_all impl rs e s)).
Proof.
  revert s.
  induction rs as [|r rs IH]; intros s Hs.
  - simpl. split; [reflexivity | exact Hs].
  - destruct (routine_frame impl r e s Hs) as (Hr & Hst & _).
    simpl. unfold bind.
    destruct (call impl r e s) as [[o s1] out1].
    unfold result_of, state_of in Hr, Hst. simpl in Hr, Hst. subst o s1.
    assert (Hb : boundary
              {| cout_flags := flags_left_by r (cout_flags s); cells := [] |}).
    { split; [apply flags_left_neutral, Hs | reflexivity]. }
    destruct (IH _ Hb) as (Hr2 & Hb2).
    destruct (call_all impl rs e _) as [[o2 s2] out2].
    exact (conj Hr2 Hb2).
Qed.

Lemma initial_boundary : boundary initial_state.
Proof. repeat split. Qed.

Ltac both_builds impl :=
  let c20 := fresh "c20" in
  let mf := fresh "mf" in
  let rc := fresh "rc" in
  destruct impl as [c20 mf rc]; destruct c20.

(** An occurrence found by running [split_on] is an occurrence. *)
Ltac find_occurrence :=
  match goal with
  | |- exists pre post, ?hay = (pre ++ ?needle ++ post)%list =>
      apply occurs_sound; vm_compute; reflexivity
  end.

Lemma all_clean (ts : list token) :
  forallb (fun t => negb (is_pointer t)) ts = true ->
  Forall (fun t => is_pointer t = false) ts.
Proof.
  intros H. apply Forall_forall. intros t Ht.
  rewrite forallb_forall in H. specialize (H t Ht).
  now destruct (is_pointer t).
Qed.

(** The standard output of every run, around the one pointer. *)
Lemma stdout_shape (impl : platform) (e : environment) :
  stdout (events_of (run impl e)) =
  (before_pointer (stdout (events_of (run impl terminal_run)))
   ++ [Pointer (layout e value_loc)]
   ++ after_pointer (stdout (events_of (run impl terminal_run))))%list.
Proof. both_builds impl; vm_compute; reflexivity. Qed.

(** * The claims *)

(** C2: on every run, whatever the environment (standard input, argument
    vector, placement of objects) and whatever the build, [main] comes to
    its end and returns the success status 0: it neither throws nor runs
    into undefined behaviour.  [run] is a total function, so every run
    terminates. *)
Theorem main_exits_with_success (impl : platform) (e : environment) :
  result_of (run impl e) = Ret 0.
Proof. both_builds impl; vm_compute; reflexivity. Qed.

(** C3: on every run the routines entered are the ten demonstration
    routines in the order of [main], and each of them is entered exactly
    once. *)
Theorem demonstrations_called_once_in_order (impl : platform)
    (e : environment) :
  calls (events_of (run impl e)) =
    [DemonstrateBasicSyntax; DemonstrateVariablesAndTypes;
     DemonstrateControlFlow; DemonstrateFunctions;
     DemonstrateReferencesAndPointers; DemonstrateClasses;
     DemonstrateModernCpp; DemonstrateStl; DemonstrateErrorHandling;
     DemonstrateModernIO] /\
  forall r : routine, times_called r (events_of (run impl e)) = 1%nat.
Proof.
  assert (H : calls (events_of (run impl e)) =
    [DemonstrateBasicSyntax; DemonstrateVariablesAndTypes;
     DemonstrateControlFlow; DemonstrateFunctions;
     DemonstrateReferencesAndPointers; DemonstrateClasses;
     DemonstrateModernCpp; DemonstrateStl; DemonstrateErrorHandling;
     DemonstrateModernIO]).
  { both_builds impl; vm_compute; reflexivity. }
  split; [exact H |].
  intros r. unfold times_called. rewrite H. destruct r; reflexivity.
Qed.

(** C5: [returnSum(5, 7)] is 12, and on every run [main] writes
    [Sum: 12] and a newline; it is the last thing written before
    [demonstrateReferencesAndPointers] is entered. *)
Theorem sum_of_5_and_7_is_12 :
  returnSum 5 7 = 12 /\
  forall (impl : platform) (e : environment),
    (exists pre post,
       stdout (events_of (run impl e)) =
       (pre ++ [Text "Sum: "; Text "12"; Text nl] ++ post)%list) /\
    (exists pre post,
       written_from DemonstrateFunctions (events_of (run impl e)) =
       (pre ++ [Text "Sum: "; Text "12"; Text nl] ++ post)%list /\
       post = []).
Proof.
  split; [reflexivity |].
  intros impl e. split.
  - both_builds impl; find_occurrence.
  - pose proof (split_on_sound [Text "Sum: "; Text "12"; Text nl]
                  (written_from DemonstrateFunctions (events_of (run impl e))))
      as S.
    destruct (split_on _ _) as [[pre post]|] eqn:E.
    + exists pre, post. split; [now apply S |].
      both_builds impl; vm_compute in E; now inversion E.
    + both_builds impl; vm_compute in E; discriminate.
Qed.

(** C9: [pop_back] after [push_back] gives back the vector, for every
    vector and element; so in [demonstrateStl] the vector is again
    {10, 20, 30, 40, 50}, [std::find] finds 30 at index 2, and the routine
    writes [Found at position 2]. *)
Theorem pop_back_undoes_push_back :
  (forall (v : list Z) (x : Z), Vec.pop_back (Vec.push_back v x) = v) /\
  stl_numbers = stl_numbers_declared /\
  Vec.find stl_numbers 30 = 2%nat /\
  nth_error stl_numbers 2 = Some 30 /\
  forall (impl : platform) (e : environment),
    exists pre post,
      written_from DemonstrateStl (events_of (run impl e)) =
      (pre ++ [Text "Find 30 in vector: "; Text "Found at position ";
               Text "2"; Text nl] ++ post)%list.
Proof.
  assert (H : forall (v : list Z) (x : Z),
             Vec.pop_back (Vec.push_back v x) = v).
  { intros v x. unfold Vec.pop_back, Vec.push_back. apply removelast_last. }
  split; [exact H |].
  split; [apply H |].
  split; [unfold stl_numbers; rewrite H; reflexivity |].
  split; [unfold stl_numbers; rewrite H; reflexivity |].
  intros impl e. both_builds impl; find_occurrence.
Qed.

(** C8: a call of [introduce] on an [Employee] uses the declaration in
    [Employee], which hides the one of [Person] (the other members are
    found in [Person]).  On every run [demonstrateClasses] writes, right
    after [dave] is constructed, the line of [Employee::introduce] with
    name, age and company, and nowhere the line [Person::introduce] would
    write for him. *)
Theorem employee_introduce_hides_person_introduce :
  resolve CEmployee introduce = Some CEmployee /\
  resolve CEmployee get_name = Some CPerson /\
  (forall x : Employee, call_introduce CEmployee x = Employee_introduce x) /\
  (forall x : Person, call_introduce CPerson x = Person_introduce x) /\
  forall (impl : platform) (e : environment),
    let out := written_from DemonstrateClasses (events_of (run impl e)) in
    stdout (events_of (Employee_introduce dave e initial_state)) =
      [Text "Hi, I'm "; Text "Dave"; Text ", "; Text "40";
       Text " years old, and I work at "; Text "Acme Inc"; Text ".";
       Text nl] /\
    (exists pre post,
       out = (pre ++ ([Text "Employee created at "; Text "Acme Inc"; Text nl]
                  ++ stdout (events_of (Employee_introduce dave e initial_state)))
                  ++ post)%list) /\
    ~ (exists pre post,
         out = (pre ++ stdout (events_of
                          (Person_introduce (person dave) e initial_state))
                    ++ post)%list).
Proof.
  do 4 (split; [reflexivity |]).
  intros impl e out. split; [reflexivity |]. split.
  - apply occurs_sound.
    subst out. both_builds impl; vm_compute; reflexivity.
  - intros (pre & post & H).
    pose proof (occurs_complete
                  (stdout (events_of
                     (Person_introduce (person dave) e initial_state)))
                  pre post) as C.
    rewrite <- H in C. subst out.
    both_builds impl; vm_compute in C; discriminate.
Qed.

(** C10: the standard output of a run is not the same for all runs.  It
    is a fixed sequence, then the address of the local [value] of
    [demonstrateReferencesAndPointers] (written right after
    [Pointer address: ]), then a fixed sequence; neither sequence holds a
    pointer, so whatever the library's conversions are, all characters but
    those of the address are the same in all runs, and two runs that place
    [value] differently differ in their output. *)
Theorem stdout_varies_in_the_pointer_only (impl : platform) :
  exists pre post : list token,
    Forall (fun t => is_pointer t = false) pre /\
    Forall (fun t => is_pointer t = false) post /\
    (exists pre', pre = (pre' ++ [Text "Pointer address: "])%list) /\
    (forall e : environment,
       stdout (events_of (run impl e)) =
       (pre ++ [Pointer (layout e value_loc)] ++ post)%list) /\
    (forall show_real show_pointer (e : environment),
       render show_real show_pointer (stdout (events_of (run impl e))) =
       render show_real show_pointer pre
       ++ show_pointer (layout e value_loc)
       ++ render show_real show_pointer post) /\
    (exists e1 e2 : environment,
       stdout (events_of (run impl e1)) <> stdout (events_of (run impl e2))).
Proof.
  exists (before_pointer (stdout (events_of (run impl terminal_run)))),
         (after_pointer (stdout (events_of (run impl terminal_run)))).
  split; [apply before_pointer_clean |].
  split; [apply all_clean; both_builds impl; vm_compute; reflexivity |].
  split.
  { exists (removelast
              (before_pointer (stdout (events_of (run impl terminal_run))))).
    both_builds impl; vm_compute; reflexivity. }
  split; [intros e; apply stdout_shape |].
  split.
  { intros show_real show_pointer e.
    rewrite (stdout_shape impl e).
    generalize (before_pointer (stdout (events_of (run impl terminal_run))))
               (after_pointer (stdout (events_of (run impl terminal_run)))).
    intros pre post. rewrite render_app. reflexivity. }
  exists terminal_run, relocated_run.
  rewrite (stdout_shape impl terminal_run), (stdout_shape impl relocated_run).
  generalize (before_pointer (stdout (events_of (run impl terminal_run))))
             (after_pointer (stdout (events_of (run impl terminal_run)))).
  intros pre post H.
  apply app_inv_head in H. injection H as H.
  vm_compute in H. discriminate.
Qed.

(** C7, as stated, fails: a routine does write state that the routines
    after it share.  [demonstrateVariablesAndTypes] leaves [boolalpha] set
    on [std::cout], and a [bool] written later prints as [true] where a
    fresh stream prints [1]. *)
Lemma boolalpha_outlives_its_routine :
  state_of (demonstrateVariablesAndTypes terminal_run initial_state)
    <> initial_state /\
  events_of (cout [boolean true] terminal_run initial_state)
    = [Out (Text "1")] /\
  events_of (cout [boolean true] terminal_run
               (state_of (demonstrateVariablesAndTypes terminal_run
                            initial_state)))
    = [Out (Text "true")].
Proof.
  split; [| split; reflexivity].
  intros H. apply (f_equal (fun s => boolalpha (cout_flags s))) in H.
  vm_compute in H. discriminate.
Qed.

(** C7, amended: whatever routines have run before, in whatever order and
    number, a routine is called with no addressable object alive and with
    [std::cout] printing numbers as a fresh stream does; it returns, writes
    exactly what it writes when it is the first to run, and leaves no
    object alive.  The only state that passes from one routine to the
    next is the flags of [std::cout]: [demonstrateVariablesAndTypes]
    leaves [boolalpha] set, [demonstrateModernIO] leaves [showbase] set,
    the other routines leave the flags as they found them. *)
Theorem routines_do_not_depend_on_earlier_ones (impl : platform)
    (rs : list routine) (r : routine) (e : environment) :
  let before := call_all impl rs e initial_state in
  let this := call impl r e (state_of before) in
  result_of before = Ret tt /\
  cells (state_of before) = [] /\
  neutral (cout_flags (state_of before)) /\
  result_of this = Ret tt /\
  events_of this = events_of (call impl r e initial_state) /\
  state_of this =
    {| cout_flags := flags_left_by r (cout_flags (state_of before));
       cells := [] |}.
Proof.
  intros before this.
  destruct (call_all_boundary impl rs e initial_state initial_boundary)
    as (Hr & Hn & Hc).
  destruct (routine_frame impl r e (state_of before) (conj Hn Hc))
    as (Hr' & Hs' & He').
  repeat split; try assumption; apply Hn.
Qed.

(** C6, as stated, fails: two runs with different standard input and
    different arguments need not write the same output, because the
    address that [demonstrateReferencesAndPointers] prints is not the same
    in every run. *)
Lemma two_runs_with_different_output :
  stdin terminal_run <> stdin relocated_run /\
  argv terminal_run <> argv relocated_run /\
  stdout (events_of (run gcc_cpp17 terminal_run))
    <> stdout (events_of (run gcc_cpp17 relocated_run)).
Proof.
  split; [discriminate |]. split; [discriminate |].
  intros H. apply (f_equal first_pointer) in H.
  vm_compute in H. discriminate.
Qed.

(** C6, amended: the program reads neither standard input nor its
    arguments.  The exit status is the same in all runs, and two runs in
    which the local [value] of [demonstrateReferencesAndPointers] is at
    the same address behave identically (result, output, final state),
    whatever their standard input and arguments are. *)
Theorem behaviour_depends_on_placement_only (impl : platform)
    (e1 e2 : environment) :
  result_of (run impl e1) = result_of (run impl e2) /\
  (layout e1 value_loc = layout e2 value_loc -> run impl e1 = run impl e2).
Proof.
  split.
  - both_builds impl; vm_compute; reflexivity.
  - destruct e1 as [in1 args1 place1], e2 as [in2 args2 place2].
    unfold value_loc. simpl. intros H.
    both_builds impl; vm_compute; rewrite H; reflexivity.
Qed.

Lemma behaviour_depends_on_placement_only_witness :
  stdin terminal_run <> stdin piped_run /\
  argv terminal_run <> argv piped_run /\
  run gcc_cpp17 terminal_run = run gcc_cpp17 piped_run.
Proof.
  split; [discriminate |]. split; [discriminate |].
  apply (proj2 (behaviour_depends_on_placement_only
                  gcc_cpp17 terminal_run piped_run)).
  reflexivity.
Defined.

(** C1, as stated, fails: on a run the division example raises no error
    (the denominator is 2), so nothing is caught and the message
    [Runtime error: Division by zero!] is not written. *)
Lemma division_error_is_not_reported :
  ~ division_error_reported (events_of (run gcc_cpp17 terminal_run)).
Proof.
  intros (pre & post & H).
  assert (Hin : In (Text "Division by zero!")
                   (stdout (events_of (run gcc_cpp17 terminal_run)))).
  { rewrite H. apply in_or_app. right. apply in_or_app. left.
    unfold division_error_report. simpl. auto. }
  apply wrote_complete in Hin. vm_compute in Hin. discriminate.
Qed.

(** C1, amended: on every run the try block of [demonstrateErrorHandling]
    completes: the routine writes its heading, [Attempting division...],
    [Result: 5] and [vec[1]: 2], and no handler runs.  With the
    denominator changed to 0, as the source suggests, the
    [std::runtime_error] is caught inside the routine, which then writes
    [Runtime error: Division by zero!] after [Attempting division...],
    and [main] still returns 0. *)
Theorem division_example_raises_no_error (impl : platform)
    (e : environment) :
  written_from DemonstrateErrorHandling (events_of (run impl e)) =
    [Text (nl ++ "----- Error Handling -----" ++ nl);
     Text "Attempting division..."; Text nl;
     Text "Result: "; Text "5"; Text nl;
     Text "vec[1]: "; Text "2"; Text nl] /\
  let by_zero :=
    main_calling impl
      (error_handling_of
         (division_attempt (range_check impl) 10 0 [1; 2; 3] 1))
      e initial_state in
  result_of by_zero = Ret 0 /\
  written_from DemonstrateErrorHandling (events_of by_zero) =
    ([Text (nl ++ "----- Error Handling -----" ++ nl);
      Text "Attempting division..."; Text nl]
     ++ division_error_report)%list.
Proof.
  both_builds impl; vm_compute; repeat split.
Qed.




(** * Further properties of the code *)

(** ** [returnSum] *)

Lemma wrap_in_range (z : Z) : Int32.in_range z = true -> Int32.wrap z = z.
Proof.
  unfold Int32.in_range, Int32.wrap, Int32.min_int, Int32.max_int.
  intros H. apply andb_true_iff in H. destruct H as [H1 H2].
  apply Z.leb_le in H1, H2.
  rewrite Z.mod_small; lia.
Qed.

(** X1: when the mathematical sum of the arguments fits an [int],
    [returnSum] returns exactly that sum, and the order of the arguments
    does not matter. *)
Theorem returnSum_is_the_sum (a b : Z) :
  Int32.in_range (a + b) = true ->
  returnSum a b = a + b /\ returnSum b a = returnSum a b.
Proof.
  intros H. unfold returnSum, Int32.add.
  rewrite (Z.add_comm b a). split; [now apply wrap_in_range | reflexivity].
Qed.

Lemma returnSum_is_the_sum_witness :
  returnSum 2000000000 (-2000000001) = -1 /\
  returnSum (-2000000001) 2000000000 = returnSum 2000000000 (-2000000001).
Proof.
  apply (returnSum_is_the_sum 2000000000 (-2000000001)). reflexivity.
Defined.

(** ** The loops of [demonstrateControlFlow] *)

Lemma add_one (i : Z) :
  Int32.min_int <= i -> i < Int32.max_int -> Int32.add i 1 = i + 1.
Proof.
  unfold Int32.add, Int32.wrap, Int32.min_int, Int32.max_int. intros.
  rewrite Z.mod_small; lia.
Qed.

Lemma print_loop_below (n : nat) (bound i : Z) (e : environment) (f : ios)
    (c : list (loc * cell)) :
  Int32.min_int <= i -> bound <= Int32.max_int ->
  (Z.to_nat (bound - i) <= n)%nat ->
  while_below n bound (fun k => cout [int k; str " "]) i e
    {| cout_flags := f; cells := c |} =
  (Ret (Z.max i bound), {| cout_flags := f; cells := c |},
   spaced f (count_up i (Z.to_nat (bound - i)))).
Proof.
  revert i.
  induction n as [|n IH]; intros i Hi Hb Hn.
  - replace (Z.to_nat (bound - i)) with 0%nat by lia.
    simpl. unfold ret. now replace (Z.max i bound) with i by lia.
  - simpl. destruct (Z.ltb_spec i bound) as [Hlt | Hge].
    + unfold bind at 1. simpl.
      rewrite add_one by lia.
      rewrite IH by (unfold Int32.min_int in *; lia).
      replace (Z.to_nat (bound - i)) with (S (Z.to_nat (bound - (i + 1))))
        by lia.
      simpl. now replace (Z.max (i + 1) bound) with (Z.max i bound) by lia.
    + replace (Z.to_nat (bound - i)) with 0%nat by lia.
      unfold ret. simpl. now replace (Z.max i bound) with i by lia.
Qed.

(** X2: the counting loops of [demonstrateControlFlow], for every [int]
    start [i] and every [int] bound.  The [while] loop (the [for] loop is
    the same loop) writes [i], [i+1], ..., [bound-1], each followed by a
    space, and nothing when [i] is not below the bound; it leaves the
    state as it is and ends with the counter at the larger of [i] and the
    bound.  The [do]-[while] loop, for a start below [INT_MAX] (at
    [INT_MAX] its [i++] overflows), runs its body at least once: it
    writes the same as the [while] loop when [i < bound] and only [i]
    otherwise, and ends with the counter at the larger of [i+1] and the
    bound. *)
Theorem print_loops_write_the_range (bound i : Z) (e : environment)
    (s : state) :
  Int32.in_range i = true -> Int32.in_range bound = true ->
  while_lt bound (fun k => cout [int k; str " "]) i e s =
    (Ret (Z.max i bound), s,
     spaced (cout_flags s) (count_up i (Z.to_nat (bound - i)))) /\
  (i < Int32.max_int ->
   do_while_lt bound (fun k => cout [int k; str " "]) i e s =
     (Ret (Z.max (i + 1) bound), s,
      spaced (cout_flags s)
             (count_up i (Nat.max 1 (Z.to_nat (bound - i)))))).
Proof.
  unfold Int32.in_range. intros Hi Hb.
  apply andb_true_iff in Hi, Hb.
  destruct Hi as [Hi _], Hb as [_ Hb]. apply Z.leb_le in Hi, Hb.
  destruct s as [f c]. split.
  - unfold while_lt. now apply print_loop_below.
  - intros Hm.
    replace (Nat.max 1 (Z.to_nat (bound - i)))
      with (S (Z.to_nat (bound - (i + 1)))) by lia.
    unfold do_while_lt, while_lt, bind. simpl.
    rewrite add_one by lia.
    rewrite print_loop_below by (unfold Int32.min_int in *; lia).
    reflexivity.
Qed.

Lemma print_loops_write_the_range_witness :
  (stdout (events_of (while_lt 5 (fun k => cout [int k; str " "]) 2
                        terminal_run initial_state))
     = [Text "2"; Text " "; Text "3"; Text " "; Text "4"; Text " "] /\
   do_while_lt 5 (fun k => cout [int k; str " "]) 2 terminal_run initial_state
     = while_lt 5 (fun k => cout [int k; str " "]) 2 terminal_run
         initial_state) /\
  (events_of (while_lt 3 (fun k => cout [int k; str " "]) 7
                terminal_run initial_state) = [] /\
   stdout (events_of (do_while_lt 3 (fun k => cout [int k; str " "]) 7
                        terminal_run initial_state)) = [Text "7"; Text " "]).
Proof.
  destruct (print_loops_write_the_range 5 2 terminal_run initial_state
              eq_refl eq_refl) as [Hw Hd].
  destruct (print_loops_write_the_range 3 7 terminal_run initial_state
              eq_refl eq_refl) as [Hw' Hd'].
  rewrite Hw, Hw', Hd, Hd'; [| reflexivity | reflexivity].
  repeat split.
Defined.

(** X3: a range-based [for] loop that prints, as the program has five of,
    writes every element of the vector once, in the vector's order, each
    followed by a space, whatever the vector is, and changes neither the
    stream's flags nor the store. *)
Theorem range_for_prints_every_element (v : list Z) (e : environment)
    (s : state) :
  for_each v (fun num => cout [int num; str " "]) e s =
    (Ret tt, s, spaced (cout_flags s) v).
Proof.
  destruct s as [f c].
  induction v as [|x v IH]; simpl; [reflexivity |].
  unfold bind at 1. simpl. now rewrite IH.
Qed.

(** ** The containers of [demonstrateStl] *)

(** X4: [std::find] as [demonstrateStl] uses it: the result is below the
    size exactly when the value occurs in the vector (the routine's test
    for [Found at position]); it is then the index of the first element
    equal to the value, and otherwise the size ([Not found]). *)
Theorem find_gives_the_first_occurrence (v : list Z) (x : Z) :
  (In x v <-> negb (Nat.eqb (Vec.find v x) (Vec.size v)) = true) /\
  (In x v -> nth_error v (Vec.find v x) = Some x) /\
  (~ In x v -> Vec.find v x = Vec.size v) /\
  (forall (i : nat) (y : Z),
     (i < Vec.find v x)%nat -> nth_error v i = Some y -> y <> x).
Proof.
  assert (Hin : In x v <-> (Vec.find v x < Vec.size v)%nat).
  { induction v as [|y v IH]; unfold Vec.size in *; simpl.
    - split; [tauto | lia].
    - destruct (Z.eqb_spec y x) as [-> | Hne].
      + split; [lia | auto].
      + rewrite <- Nat.succ_lt_mono, <- IH. split; [| tauto].
        intros [H | H]; [contradiction | exact H]. }
  pose proof (find_bound v x) as Hb.
  split; [| split; [| split]].
  - rewrite Hin, negb_true_iff, Nat.eqb_neq. lia.
  - intros H. apply find_spec. now apply Hin.
  - intros H. rewrite Hin in H. lia.
  - clear Hin Hb. induction v as [|z v IH]; simpl; intros i y Hi Hy.
    + lia.
    + destruct (Z.eqb_spec z x) as [-> | Hne]; [lia |].
      destruct i as [|i]; simpl in Hy.
      * inversion Hy. now subst.
      * apply (IH i y); [lia | exact Hy].
Qed.

Lemma find_gives_the_first_occurrence_witness :
  nth_error [10; 30; 20; 30] (Vec.find [10; 30; 20; 30] 30) = Some 30 /\
  Vec.find [10; 30; 20; 30] 30 = 1%nat /\
  Vec.find [10; 30; 20; 30] 35 = 4%nat.
Proof.
  destruct (find_gives_the_first_occurrence [10; 30; 20; 30] 30)
    as (_ & H & _).
  destruct (find_gives_the_first_occurrence [10; 30; 20; 30] 35)
    as (_ & _ & H' & _).
  split; [apply H; simpl; auto | split; [reflexivity |]].
  apply H'. simpl. intros [E | [E | [E | [E | []]]]]; discriminate.
Defined.

Lemma insert_sorted_perm (x : Z) (v : list Z) :
  Permutation (x :: v) (Vec.insert_sorted x v).
Proof.
  induction v as [|y v IH]; simpl; [reflexivity |].
  destruct (x <=? y); [reflexivity |].
  rewrite perm_swap. now constructor.
Qed.

Lemma insert_sorted_ascending (x : Z) (v : list Z) :
  ascending v -> ascending (Vec.insert_sorted x v).
Proof.
  unfold ascending.
  induction v as [|y v IH]; simpl; intros H.
  - repeat constructor.
  - destruct (Z.leb_spec x y) as [Hle | Hgt].
    + constructor; [exact H | constructor; exact Hle].
    + apply Sorted_inv in H. destruct H as [Hs Hh].
      constructor; [now apply IH |].
      destruct v as [|z v]; simpl.
      * constructor. lia.
      * destruct (Z.leb_spec x z); constructor; [lia |].
        now inversion Hh.
Qed.

(** X5: [std::sort] as [demonstrateStl] uses it gives the elements of the
    vector, each as often as before, in ascending order; a vector that is
    in ascending order already, like the routine's, is left as it is. *)
Theorem sort_orders_the_same_elements (v : list Z) :
  ascending (Vec.sort v) /\
  Permutation v (Vec.sort v) /\
  (ascending v -> Vec.sort v = v).
Proof.
  unfold Vec.sort. split; [| split].
  - induction v as [|x v IH]; simpl; [constructor |].
    now apply insert_sorted_ascending.
  - induction v as [|x v IH]; simpl; [constructor |].
    rewrite <- insert_sorted_perm. now constructor.
  - unfold ascending.
    induction v as [|x v IH]; simpl; intros H; [reflexivity |].
    apply Sorted_inv in H. destruct H as [Hs Hh].
    rewrite (IH Hs).
    destruct v as [|y v]; simpl; [reflexivity |].
    inversion Hh; subst.
    destruct (Z.leb_spec x y); [reflexivity | lia].
Qed.

Lemma sort_orders_the_same_elements_witness :
  Vec.sort stl_numbers = stl_numbers /\
  Vec.sort [30; 10; 20; 10] = [10; 10; 20; 30].
Proof.
  split; [| reflexivity].
  apply (proj2 (proj2 (sort_orders_the_same_elements stl_numbers))).
  unfold ascending. vm_compute.
  repeat (constructor; try discriminate).
Defined.

Lemma ascii_compare_lt_trans (a b c : ascii) :
  Ascii.compare a b = Lt -> Ascii.compare b c = Lt -> Ascii.compare a c = Lt.
Proof.
  unfold Ascii.compare. rewrite !N.compare_lt_iff. apply N.lt_trans.
Qed.

Lemma string_compare_lt_trans (s1 s2 s3 : string) :
  String.compare s1 s2 = Lt -> String.compare s2 s3 = Lt ->
  String.compare s1 s3 = Lt.
Proof.
  revert s2 s3.
  induction s1 as [|a s1 IH]; intros [|b s2] [|c s3]; simpl;
    try discriminate; try reflexivity.
  destruct (Ascii.compare a b) eqn:Eab; try discriminate;
    destruct (Ascii.compare b c) eqn:Ebc; try discriminate; intros H1 H2.
  - apply Ascii.compare_eq_iff in Eab, Ebc. subst.
    assert (E : Ascii.compare c c = Eq).
    { unfold Ascii.compare. apply N.compare_refl. }
    rewrite E. now apply (IH s2).
  - apply Ascii.compare_eq_iff in Eab. subst. now rewrite Ebc.
  - apply Ascii.compare_eq_iff in Ebc. subst. now rewrite Eab.
  - now rewrite (ascii_compare_lt_trans a b c).
Qed.

Lemma string_compare_refl (s : string) : String.compare s s = Eq.
Proof.
  induction s as [|c s IH]; simpl; [reflexivity |].
  unfold Ascii.compare. now rewrite N.compare_refl.
Qed.

Lemma assign_hd (k : string) (v : Z) (a : string * Z) (m : StdMap.t) :
  HdRel (fun a b => String.compare (fst a) (fst b) = Lt) a m ->
  String.compare (fst a) k = Lt ->
  HdRel (fun a b => String.compare (fst a) (fst b) = Lt) a
        (StdMap.assign k v m).
Proof.
  intros Hh Hk. destruct m as [|[k' v'] m]; simpl.
  - now constructor.
  - destruct (String.compare k k'); constructor; try exact Hk.
    now inversion Hh.
Qed.

Lemma keys_above (a : string * Z) (m : StdMap.t) :
  keys_ascending (a :: m) ->
  forall b, In b m -> String.compare (fst a) (fst b) = Lt.
Proof.
  unfold keys_ascending. intros H.
  apply Sorted_StronglySorted in H.
  - apply StronglySorted_inv in H. destruct H as [_ H].
    intros b Hb. rewrite Forall_forall in H. now apply H.
  - intros x y z. apply string_compare_lt_trans.
Qed.

(** X6: [ages[k] = v] on a [std::map] whose keys are in ascending order
    (as they are from the empty map on) keeps them in ascending order,
    which is the order in which [demonstrateStl] prints the entries,
    whatever the order of the assignments; afterwards the map holds [v]
    and nothing else for [k], and for every other key what it held
    before. *)
Theorem assign_keeps_the_map_ordered (k : string) (v : Z) (m : StdMap.t) :
  keys_ascending m ->
  keys_ascending (StdMap.assign k v m) /\
  (forall v' : Z, In (k, v') (StdMap.assign k v m) <-> v' = v) /\
  (forall (k' : string) (v' : Z),
     k' <> k -> (In (k', v') (StdMap.assign k v m) <-> In (k', v') m)).
Proof.
  unfold keys_ascending.
  induction m as [|[k0 v0] m IH]; intros Hm.
  - simpl. split; [repeat constructor |]. split.
    + intros v'. split.
      * intros [H | []]. now inversion H.
      * intros ->. now left.
    + intros k' v' Hne. split; [| tauto].
      intros [H | []]. inversion H. now subst.
  - pose proof (keys_above _ _ Hm) as Habove.
    pose proof Hm as Hm'.
    apply Sorted_inv in Hm'. destruct Hm' as [Hs Hh].
    destruct (IH Hs) as (IHs & IHk & IHo).
    simpl. destruct (String.compare k k0) eqn:E.
    + apply String.compare_eq_iff in E. subst k0.
      split; [| split].
      * constructor; [exact Hs |].
        destruct m as [|b m]; constructor. now inversion Hh.
      * intros v'. split.
        -- intros [H | H]; [now inversion H |].
           specialize (Habove _ H). simpl in Habove.
           pose proof (string_compare_refl k) as R.
           congruence.
        -- intros ->. now left.
      * intros k' v' Hne. simpl. split.
        -- intros [H | H]; [inversion H; now subst | now right].
        -- intros [H | H]; [inversion H; now subst | now right].
    + split; [| split].
      * constructor; [exact Hm | constructor; exact E].
      * intros v'. split.
        -- intros [H | [H | H]].
           ++ now inversion H.
           ++ inversion H. subst.
              pose proof (string_compare_refl k) as R.
              congruence.
           ++ specialize (Habove _ H). simpl in Habove.
              pose proof (string_compare_lt_trans _ _ _ E Habove) as T.
              pose proof (string_compare_refl k) as R.
              congruence.
        -- intros ->. now left.
      * intros k' v' Hne. simpl. split.
        -- intros [H | H]; [inversion H; now subst | exact H].
        -- intros H. now right.
    + assert (E' : String.compare k0 k = Lt).
      { rewrite String.compare_antisym, E. reflexivity. }
      split; [| split].
      * constructor; [exact IHs |]. now apply assign_hd.
      * intros v'. rewrite <- IHk. simpl. split.
        -- intros [H | H]; [| exact H].
           inversion H. subst.
           pose proof (string_compare_refl k) as R.
           congruence.
        -- intros H. now right.
      * intros k' v' Hne. simpl. rewrite (IHo k' v' Hne). reflexivity.
Qed.

Lemma assign_keeps_the_map_ordered_witness :
  StdMap.assign "Alice" 30 (StdMap.assign "Charlie" 35
     (StdMap.assign "Bob" 25 StdMap.empty))
  = [("Alice", 30); ("Bob", 25); ("Charlie", 35)] /\
  keys_ascending (StdMap.assign "Bob" 26
     [("Alice", 30); ("Bob", 25); ("Charlie", 35)]).
Proof.
  split; [reflexivity |].
  apply (assign_keeps_the_map_ordered "Bob" 26
           [("Alice", 30); ("Bob", 25); ("Charlie", 35)]).
  unfold keys_ascending. repeat constructor.
Defined.

(** ** Numbers written and read back *)

Ltac eval_digit :=
  match goal with
  | |- context [Parse.digit ?c] =>
      let v := eval vm_compute in (Parse.digit c) in
      change (Parse.digit c) with v
  end.

Lemma digits_of_uint (d : Decimal.uint) (acc : Z) (n : nat) :
  Parse.digits (NilEmpty.string_of_uint d) acc n =
  (uint_after d acc, (n + Decimal.nb_digits d)%nat, EmptyString).
Proof.
  revert acc n.
  induction d; intros acc n; cbn -[Z.mul Z.add];
    [do 2 f_equal; lia | ..];
    eval_digit; cbn -[Z.mul Z.add];
    rewrite IHd; do 2 f_equal; lia.
Qed.

Lemma uint_after_pos (d : Decimal.uint) (acc : positive) :
  uint_after d (Zpos acc) = Zpos (Pos.of_uint_acc d acc).
Proof.
  revert acc.
  induction d; intros acc; cbn -[Z.mul Z.add Pos.mul Pos.add];
    try reflexivity;
    match goal with
    | |- uint_after _ ?z = Z.pos (Pos.of_uint_acc _ ?p) =>
        replace z with (Z.pos p) by lia; apply IHd
    end.
Qed.

Lemma uint_after_zero (d : Decimal.uint) :
  uint_after d 0 = Z.of_N (Pos.of_uint d).
Proof.
  induction d; cbn -[Pos.mul Pos.add]; try reflexivity; try exact IHd;
    match goal with
    | |- uint_after _ (Zpos ?p) = _ => apply (uint_after_pos d p)
    end.
Qed.

Lemma integer_of_decimal (z : Z) : Parse.integer (decimal z) = Some (z, "").
Proof.
  unfold decimal.
  destruct z as [|p|p]; [reflexivity | |].
  - simpl Z.to_int. simpl NilZero.string_of_int.
    pose proof (DecimalPos.Unsigned.of_to p) as E.
    assert (V : uint_after (Pos.to_uint p) 0 = Zpos p).
    { rewrite uint_after_zero, E. reflexivity. }
    unfold Parse.integer.
    destruct (Pos.to_uint p) as [|d|d|d|d|d|d|d|d|d|d] eqn:U;
      [simpl in E; discriminate | ..];
      simpl; rewrite digits_of_uint; simpl in V |- *; rewrite V;
      reflexivity.
  - simpl Z.to_int. simpl NilZero.string_of_int.
    pose proof (DecimalPos.Unsigned.of_to p) as E.
    assert (V : uint_after (Pos.to_uint p) 0 = Zpos p).
    { rewrite uint_after_zero, E. reflexivity. }
    unfold Parse.integer.
    destruct (Pos.to_uint p) as [|d|d|d|d|d|d|d|d|d|d] eqn:U;
      [simpl in E; discriminate | ..];
      simpl; rewrite digits_of_uint; simpl in V |- *; rewrite V;
      reflexivity.
Qed.

(** X7: [std::stoi] reads back what [operator<<] writes for an [int] in
    decimal: for every [int] value, [stoi] of its decimal text returns the
    value.  Of the decimal text of a number that does not fit an [int] it
    throws [std::out_of_range], and of a text that starts with no number
    (the empty string, a word) [std::invalid_argument]; it never ends in
    undefined behaviour. *)
Theorem stoi_reads_back_decimal (z : Z) :
  (Int32.in_range z = true -> stoi (decimal z) = ret z) /\
  (Int32.in_range z = false ->
   stoi (decimal z) = throw (Std std.out_of_range "stoi")) /\
  stoi "" = throw (Std std.invalid_argument "stoi") /\
  (forall (s : string) (e : environment) (st : state),
     result_of (stoi s e st) <> Undefined).
Proof.
  unfold stoi. rewrite integer_of_decimal.
  split; [intros -> ; reflexivity |].
  split; [intros -> ; reflexivity |].
  split; [reflexivity |].
  intros s e st.
  destruct (Parse.integer s) as [[v rest]|]; [| discriminate].
  destruct (Int32.in_range v); discriminate.
Qed.

Lemma stoi_reads_back_decimal_witness :
  stoi (decimal (-2147483648)) = ret (-2147483648) /\
  stoi (decimal 2147483648) = throw (Std std.out_of_range "stoi").
Proof.
  split.
  - apply (proj1 (stoi_reads_back_decimal (-2147483648))). reflexivity.
  - apply (proj1 (proj2 (stoi_reads_back_decimal 2147483648))). reflexivity.
Defined.

(** ** The try block and the handlers of [demonstrateErrorHandling] *)

Lemma quotient_fits (a b : Z) :
  Int32.in_range a = true -> Int32.in_range b = true ->
  Int32.div_defined a b = true ->
  Int32.div a b = Z.quot a b.
Proof.
  unfold Int32.in_range, Int32.div_defined, Int32.div, Int32.wrap,
    Int32.min_int, Int32.max_int.
  intros Ha Hb Hd.
  apply andb_true_iff in Ha, Hb, Hd.
  destruct Ha as [Ha1 Ha2], Hb as [Hb1 Hb2], Hd as [Hd1 Hd2].
  apply Z.leb_le in Ha1, Ha2, Hb1, Hb2.
  apply negb_true_iff in Hd1, Hd2. apply Z.eqb_neq in Hd1.
  assert (Hq : - 2 ^ 31 <= Z.quot a b <= 2 ^ 31 - 1).
  { destruct (Z.eq_dec b 1) as [-> | H1]; [rewrite Z.quot_1_r; lia |].
    destruct (Z.eq_dec b (-1)) as [-> | H2].
    - rewrite Z.eqb_refl, andb_true_r in Hd2. apply Z.eqb_neq in Hd2.
      change (-1) with (- (1)). rewrite Z.quot_opp_r, Z.quot_1_r by lia.
      lia.
    - assert (Habs : Z.abs (Z.quot a b) <= 2 ^ 30).
      { rewrite <- Z.quot_abs by lia.
        rewrite Z.quot_div_nonneg by lia.
        apply Z.div_le_upper_bound; lia. }
      lia. }
  rewrite Z.mod_small; lia.
Qed.

(** The try block, for all values of its locals. *)
Lemma division_attempt_run (msg : nat -> nat -> string)
    (numerator denominator : Z) (vec : list Z) (i : nat)
    (e : environment) (s : state) :
  division_attempt msg numerator denominator vec i e s =
  if denominator =? 0
  then (Throw (Std std.runtime_error "Division by zero!"), s,
        [Out (Text "Attempting division..."); Out (Text nl)])
  else if Int32.div_defined numerator denominator
  then
    let shown :=
      [Out (Text "Attempting division..."); Out (Text nl);
       Out (Text "Result: ");
       Out (Text (show_int (cout_flags s) (Int32.div numerator denominator)));
       Out (Text nl); Out (Text "vec[1]: ")] in
    match nth_error vec i with
    | Some x =>
        (Ret tt, s,
         (shown ++ [Out (Text (show_int (cout_flags s) x)); Out (Text nl)])%list)
    | None =>
        (Throw (Std std.out_of_range (msg i (List.length vec))), s, shown)
    end
  else (Undefined, s, [Out (Text "Attempting division..."); Out (Text nl)]).
Proof.
  destruct s as [f c].
  unfold division_attempt, divide, Vec.at_, Vec.size, bind, cout, throw,
    ret, undefined.
  simpl.
  destruct (denominator =? 0); [reflexivity |]. simpl.
  destruct (Int32.div_defined numerator denominator); [| reflexivity]. simpl.
  destruct (nth_error vec i); reflexivity.
Qed.

(** X9: [demonstrateErrorHandling] for all [int] values of the locals of
    its try block.  After its heading and [Attempting division...] the
    routine writes the report of the [std::runtime_error] handler when the
    denominator is 0.  For the numerator [INT_MIN] and the denominator -1
    the division is undefined behaviour, and nothing more can be said of
    the run.  In every other case it writes the quotient, rounded towards
    zero, and then the element at the index or, for an index that is not
    below the size, the report of the [std::out_of_range] handler with
    the library's text.  Where the behaviour is defined the routine
    returns and leaves the state as it is, and the other two handlers do
    not run. *)
Theorem error_handling_reports (msg : nat -> nat -> string)
    (numerator denominator : Z) (vec : list Z) (i : nat)
    (e : environment) (s : state) :
  Int32.in_range numerator = true -> Int32.in_range denominator = true ->
  error_handling_of (division_attempt msg numerator denominator vec i) e s =
  if denominator =? 0
  then (Ret tt, s,
        (error_handling_heading
         ++ [Out (Text "Attempting division..."); Out (Text nl)]
         ++ map Out division_error_report)%list)
  else if (numerator =? Int32.min_int) && (denominator =? -1)
  then (Undefined, s,
        (error_handling_heading
         ++ [Out (Text "Attempting division..."); Out (Text nl)])%list)
  else
    (Ret tt, s,
     (error_handling_heading
      ++ [Out (Text "Attempting division..."); Out (Text nl);
          Out (Text "Result: ");
          Out (Text (show_int (cout_flags s)
                       (Z.quot numerator denominator)));
          Out (Text nl); Out (Text "vec[1]: ")]
      ++ match nth_error vec i with
         | Some x => [Out (Text (show_int (cout_flags s) x)); Out (Text nl)]
         | None =>
             [Out (Text "Out of range error: ");
              Out (Text (msg i (List.length vec))); Out (Text nl)]
         end)%list).
Proof.
  intros Hn Hd.
  pose proof (quotient_fits numerator denominator Hn Hd) as Hq.
  destruct s as [f c].
  unfold error_handling_of, try_catch, enter, emit.
  unfold bind at 1 2. unfold cout at 1. simpl.
  rewrite division_attempt_run. simpl.
  unfold Int32.div_defined in *.
  destruct (denominator =? 0); [reflexivity |]. simpl in *.
  destruct ((numerator =? Int32.min_int) && (denominator =? -1));
    [reflexivity |].
  simpl in *. rewrite (Hq eq_refl).
  destruct (nth_error vec i); reflexivity.
Qed.

Lemma error_handling_reports_witness :
  stdout (events_of
            (error_handling_of
               (division_attempt (range_check gcc_cpp17) (-7) 2 [1; 2; 3] 1)
               terminal_run initial_state))
    = [Text (nl ++ "----- Error Handling -----" ++ nl);
       Text "Attempting division..."; Text nl;
       Text "Result: "; Text "-3"; Text nl;
       Text "vec[1]: "; Text "2"; Text nl] /\
  result_of
    (error_handling_of
       (division_attempt (range_check gcc_cpp17) (-2147483648) (-1)
          [1; 2; 3] 1)
       terminal_run initial_state) = Undefined.
Proof.
  split.
  - rewrite (error_handling_reports (range_check gcc_cpp17) (-7) 2
               [1; 2; 3] 1 terminal_run initial_state);
      reflexivity.
  - rewrite (error_handling_reports (range_check gcc_cpp17) (-2147483648)
               (-1) [1; 2; 3] 1 terminal_run initial_state);
      reflexivity.
Defined.

(** ** Objects and their storage *)

Lemma fresh_on_top (l : loc) (x : cell) (c : list (loc * cell)) :
  (fresh c <= l)%nat -> fresh ((l, x) :: c) = S l.
Proof.
  intros H. change (Nat.max (S l) (fresh c) = S l). lia.
Qed.

Lemma fresh_unused (c : list (loc * cell)) (l : loc) :
  (fresh c <= l)%nat -> lookup l c = None.
Proof.
  induction c as [|[l' x] c IH]; simpl; [reflexivity |].
  intros H. change (Nat.max (S l') (fresh c) <= l)%nat in H.
  destruct (Nat.eqb_spec l l'); [lia |]. apply IH. lia.
Qed.

Local Opaque fresh.

Ltac run_store :=
  repeat (simpl; rewrite ?Nat.eqb_refl);
  repeat (rewrite fresh_on_top by lia; repeat (simpl; rewrite ?Nat.eqb_refl)).

Lemma references_run (e : environment) (f : ios) (c : list (loc * cell)) :
  demonstrateReferencesAndPointers e {| cout_flags := f; cells := c |} =
  (Ret tt, {| cout_flags := f; cells := c |},
   Enter DemonstrateReferencesAndPointers ::
   map Out
     [Text (nl ++ "----- References and Pointers -----" ++ nl);
      Text "Original: "; Text (show_int f 42); Text nl;
      Text "Reference: "; Text (show_int f 42); Text nl;
      Text "After modifying reference, original: "; Text (show_int f 100);
      Text nl;
      Text "Value: "; Text (show_int f 42); Text nl;
      Text "Pointer address: "; Pointer (layout e (S (fresh c))); Text nl;
      Text "Dereferenced pointer: "; Text (show_int f 42); Text nl;
      Text "After modifying pointer, value: "; Text (show_int f 200);
      Text nl;
      Text "Smart pointer value: "; Text (show_int f 42); Text nl]).
Proof.
  cbv beta delta [demonstrateReferencesAndPointers bind alloc load_int load
    store_int free address_of cout enter emit ret undefined with_cells].
  run_store. reflexivity.
Qed.

Lemma classes_run (e : environment) (f : ios) (c : list (loc * cell)) :
  result_of (demonstrateClasses e {| cout_flags := f; cells := c |}) = Ret tt /\
  state_of (demonstrateClasses e {| cout_flags := f; cells := c |}) =
    {| cout_flags := f; cells := c |} /\
  stdout (events_of (demonstrateClasses e {| cout_flags := f; cells := c |})) =
    [Text (nl ++ "----- Classes and OOP -----" ++ nl);
     Text "Person created: "; Text "Alice"; Text nl;
     Text "Hi, I'm "; Text "Alice"; Text " and I'm "; Text (show_int f 30);
     Text " years old."; Text nl;
     Text "Person created: "; Text "Bob"; Text nl;
     Text "Hi, I'm "; Text "Bob"; Text " and I'm "; Text (show_int f 25);
     Text " years old."; Text nl;
     Text "Person destroyed: "; Text "Bob"; Text nl;
     Text "Person created: "; Text "Charlie"; Text nl;
     Text "Hi, I'm "; Text "Charlie"; Text " and I'm "; Text (show_int f 35);
     Text " years old."; Text nl;
     Text "Person created: "; Text "Dave"; Text nl;
     Text "Employee created at "; Text "Acme Inc"; Text nl;
     Text "Hi, I'm "; Text "Dave"; Text ", "; Text (show_int f 40);
     Text " years old, and I work at "; Text "Acme Inc"; Text "."; Text nl;
     Text "Person destroyed: "; Text "Dave"; Text nl;
     Text "Person destroyed: "; Text "Charlie"; Text nl;
     Text "Person destroyed: "; Text "Alice"; Text nl].
Proof.
  cbv beta delta [demonstrateClasses bind alloc load_person load free cout
    enter emit ret undefined with_cells new_Person delete_Person
    Person_ctor Person_dtor Person_introduce Employee_ctor Employee_dtor
    Employee_introduce call_introduce result_of state_of events_of].
  run_store. split; [reflexivity | split; reflexivity].
Qed.

Lemma new_delete_run (n : string) (a : Z) (e : environment) (f : ios)
    (c : list (loc * cell)) :
  (p <- new_Person n a ;; delete_Person p) e
    {| cout_flags := f; cells := c |} =
  (Ret tt, {| cout_flags := f; cells := c |},
   map Out [Text "Person created: "; Text n; Text nl;
            Text "Person destroyed: "; Text n; Text nl]).
Proof.
  cbv beta delta [bind alloc load_person load free cout ret undefined
    with_cells new_Person delete_Person Person_ctor Person_dtor].
  run_store. reflexivity.
Qed.

Lemma second_delete_run (n : string) (a : Z) (e : environment) (f : ios)
    (c : list (loc * cell)) :
  result_of ((p <- new_Person n a ;; delete_Person p ;; delete_Person p) e
               {| cout_flags := f; cells := c |}) = Undefined.
Proof.
  cbv beta delta [bind alloc load_person load free cout ret undefined
    with_cells new_Person delete_Person Person_ctor Person_dtor result_of].
  run_store. rewrite fresh_unused by lia. reflexivity.
Qed.

Local Transparent fresh.

(** X10: [demonstrateReferencesAndPointers] in any state, whatever
    objects are alive when it is called: it returns and leaves the state
    exactly as it found it (the three objects it creates are released).
    The assignment through [reference] is seen in [original] (100), the
    assignment through [pointer] in [value] (200), and the address written
    is that of the second location above all live ones. *)
Theorem references_and_pointers_in_any_state (e : environment) (s : state) :
  demonstrateReferencesAndPointers e s =
  (Ret tt, s,
   Enter DemonstrateReferencesAndPointers ::
   map Out
     [Text (nl ++ "----- References and Pointers -----" ++ nl);
      Text "Original: "; Text (show_int (cout_flags s) 42); Text nl;
      Text "Reference: "; Text (show_int (cout_flags s) 42); Text nl;
      Text "After modifying reference, original: ";
      Text (show_int (cout_flags s) 100); Text nl;
      Text "Value: "; Text (show_int (cout_flags s) 42); Text nl;
      Text "Pointer address: ";
      Pointer (layout e (S (fresh (cells s)))); Text nl;
      Text "Dereferenced pointer: "; Text (show_int (cout_flags s) 42);
      Text nl;
      Text "After modifying pointer, value: ";
      Text (show_int (cout_flags s) 200); Text nl;
      Text "Smart pointer value: "; Text (show_int (cout_flags s) 42);
      Text nl]).
Proof. destruct s as [f c]. apply references_run. Qed.

(** X11: [new Person(n, a)] followed by [delete] of the pointer, for every
    name and age and in any state: the constructor and the destructor run
    once each, with the same name, and the state is as before, so the
    object's storage is given back.  A second [delete] of the same pointer
    is undefined behaviour. *)
Theorem new_then_delete_restores_the_store (n : string) (a : Z)
    (e : environment) (s : state) :
  (p <- new_Person n a ;; delete_Person p) e s =
    (Ret tt, s,
     map Out [Text "Person created: "; Text n; Text nl;
              Text "Person destroyed: "; Text n; Text nl]) /\
  result_of ((p <- new_Person n a ;; delete_Person p ;; delete_Person p) e s)
    = Undefined.
Proof.
  destruct s as [f c].
  split; [apply new_delete_run | apply second_delete_run].
Qed.

(** X12: every routine, called in any state (any flags of [std::cout],
    any objects alive): it returns, the objects alive afterwards are
    exactly those alive before, and the flags of [std::cout] are as
    before, except that [demonstrateVariablesAndTypes] has set
    [boolalpha] and [demonstrateModernIO] has set [showbase] and put the
    number base, the floating-point style and the precision back to
    decimal, default and 6, whatever they were. *)
Theorem routines_return_and_release (impl : platform) (r : routine)
    (e : environment) (s : state) :
  result_of (call impl r e s) = Ret tt /\
  state_of (call impl r e s) =
    {| cout_flags := flags_after r (cout_flags s); cells := cells s |}.
Proof.
  destruct s as [f c].
  destruct r;
    [ | | | | change (call impl DemonstrateReferencesAndPointers)
              with demonstrateReferencesAndPointers;
            rewrite references_run; split; reflexivity
      | change (call impl DemonstrateClasses) with demonstrateClasses;
        destruct (classes_run e f c) as (H1 & H2 & _); split; assumption
      | | | | ];
    destruct f as [ba sb bf ff pr]; both_builds impl;
    vm_compute; split; reflexivity.
Qed.

(** X13: [demonstrateClasses] in any state, whatever objects are alive
    when it is called: it returns and leaves the state as it found it.
    Every [Person] that is constructed is destroyed exactly once: Bob at
    the [delete], and at the end of the routine Dave, Charlie and Alice,
    in the reverse of the order of their construction. *)
Theorem classes_destroy_what_they_create (e : environment) (s : state) :
  result_of (demonstrateClasses e s) = Ret tt /\
  state_of (demonstrateClasses e s) = s /\
  stdout (events_of (demonstrateClasses e s)) =
    [Text (nl ++ "----- Classes and OOP -----" ++ nl);
     Text "Person created: "; Text "Alice"; Text nl;
     Text "Hi, I'm "; Text "Alice"; Text " and I'm ";
     Text (show_int (cout_flags s) 30); Text " years old."; Text nl;
     Text "Person created: "; Text "Bob"; Text nl;
     Text "Hi, I'm "; Text "Bob"; Text " and I'm ";
     Text (show_int (cout_flags s) 25); Text " years old."; Text nl;
     Text "Person destroyed: "; Text "Bob"; Text nl;
     Text "Person created: "; Text "Charlie"; Text nl;
     Text "Hi, I'm "; Text "Charlie"; Text " and I'm ";
     Text (show_int (cout_flags s) 35); Text " years old."; Text nl;
     Text "Person created: "; Text "Dave"; Text nl;
     Text "Employee created at "; Text "Acme Inc"; Text nl;
     Text "Hi, I'm "; Text "Dave"; Text ", ";
     Text (show_int (cout_flags s) 40);
     Text " years old, and I work at "; Text "Acme Inc"; Text "."; Text nl;
     Text "Person destroyed: "; Text "Dave"; Text nl;
     Text "Person destroyed: "; Text "Charlie"; Text nl;
     Text "Person destroyed: "; Text "Alice"; Text nl].
Proof. destruct s as [f c]. apply classes_run. Qed.

(** ** The classes [Person] and [Employee] *)

(** X14: the setters and getters of [Person]: a getter returns what the
    matching setter stored, the other member keeps its value, and a later
    [introduce] speaks of the new values. *)
Theorem setters_store_what_getters_return (p : Person) (n : string) (a : Z) :
  getName (setName n p) = n /\
  getAge (setName n p) = getAge p /\
  getAge (setAge a p) = a /\
  getName (setAge a p) = getName p /\
  forall (e : environment) (s : state),
    Person_introduce (setAge a (setName n p)) e s =
    (Ret tt, s,
     map Out [Text "Hi, I'm "; Text n; Text " and I'm ";
              Text (show_int (cout_flags s) a); Text " years old."; Text nl]).
Proof.
  do 4 (split; [reflexivity |]).
  intros e [f c]. reflexivity.
Qed.

(** X15: for every [Employee], in any state, [introduce] called on the
    object names the company, while [introduce] called on its [Person]
    part (the object seen as a [Person]) is [Person]'s version and does
    not: the two calls never write the same. *)
Theorem introduce_depends_on_the_static_type (x : Employee)
    (e : environment) (s : state) :
  call_introduce CEmployee x e s =
    (Ret tt, s,
     map Out [Text "Hi, I'm "; Text (name (person x)); Text ", ";
              Text (show_int (cout_flags s) (age (person x)));
              Text " years old, and I work at "; Text (company x);
              Text "."; Text nl]) /\
  call_introduce CPerson (person x) e s =
    (Ret tt, s,
     map Out [Text "Hi, I'm "; Text (name (person x)); Text " and I'm ";
              Text (show_int (cout_flags s) (age (person x)));
              Text " years old."; Text nl]) /\
  events_of (call_introduce CEmployee x e s)
    <> events_of (call_introduce CPerson (person x) e s).
Proof.
  destruct s as [f c], x as [[n a] co].
  split; [reflexivity | split; [reflexivity |]].
  simpl. discriminate.
Qed.

(** X16: an [Employee] is constructed base first: [Person]'s constructor
    writes its line before [Employee]'s does, and the object holds the
    name, age and company passed.  Its destruction runs [Person]'s
    destructor.  Construction followed by destruction leaves the state as
    it was, for all arguments. *)
Theorem employee_is_built_base_first (n : string) (a : Z) (co : string)
    (e : environment) (s : state) :
  Employee_ctor n a co e s =
    (Ret {| person := {| name := n; age := a |}; company := co |}, s,
     map Out [Text "Person created: "; Text n; Text nl;
              Text "Employee created at "; Text co; Text nl]) /\
  (x <- Employee_ctor n a co ;; Employee_dtor x) e s =
    (Ret tt, s,
     map Out [Text "Person created: "; Text n; Text nl;
              Text "Employee created at "; Text co; Text nl;
              Text "Person destroyed: "; Text n; Text nl]).
Proof. destruct s as [f c]. split; reflexivity. Qed.

(** ** [demonstrateFunctions] and [main] *)

(** X17: [demonstrateFunctions] for every argument and in any state: it
    returns, leaves the state as it is, and writes its argument in the
    line [Function parameter: ]; nothing else that it writes depends on
    the argument (100 for the local, and 3, 12 and 30 for the lambda with
    defaulted parameters called with no, one and two arguments). *)
Theorem functions_demo_prints_its_argument (value : Z) (e : environment)
    (s : state) :
  demonstrateFunctions value e s =
  (Ret tt, s,
   Enter DemonstrateFunctions ::
   map Out
     [Text (nl ++ "----- Functions -----" ++ nl);
      Text "Function parameter: "; Text (show_int (cout_flags s) value);
      Text nl;
      Text "Inside local scope: "; Text (show_int (cout_flags s) 100);
      Text nl;
      Text "Default params (no args): "; Text (show_int (cout_flags s) 3);
      Text nl;
      Text "Default params (one arg): "; Text (show_int (cout_flags s) 12);
      Text nl;
      Text "Default params (two args): "; Text (show_int (cout_flags s) 30);
      Text nl]).
Proof. destruct s as [f c]. reflexivity. Qed.

(** X18: what a run writes is put together from what the routines write
    on their own: the banner of [main], then for each routine in turn
    exactly the events of that routine called first in a fresh process,
    with the line [Sum: 12] after [demonstrateFunctions] and the closing
    line at the end. *)
Theorem run_is_the_routines_in_sequence (impl : platform) (e : environment) :
  let alone (r : routine) := events_of (call impl r e initial_state) in
  events_of (run impl e) =
  (map Out [Text "=============================="; Text nl;
            Text "C++ Tutorial for C# and JS Developers"; Text nl;
            Text "=============================="; Text nl]
   ++ alone DemonstrateBasicSyntax
   ++ alone DemonstrateVariablesAndTypes
   ++ alone DemonstrateControlFlow
   ++ alone DemonstrateFunctions
   ++ map Out [Text "Sum: "; Text "12"; Text nl]
   ++ alone DemonstrateReferencesAndPointers
   ++ alone DemonstrateClasses
   ++ alone DemonstrateModernCpp
   ++ alone DemonstrateStl
   ++ alone DemonstrateErrorHandling
   ++ alone DemonstrateModernIO
   ++ map Out [Text (nl ++ "Tutorial completed successfully!"); Text nl])%list.
Proof. both_builds impl; vm_compute; reflexivity. Qed.

(** ** Formatted input *)










(** ** Output formats *)

(** X20: the two ways in which [demonstrateModernIO] writes a number in
    hexadecimal, [std::hex] with [std::showbase] on the stream and the
    format [{:#x}], give the same text for every positive [int]; for 0
    they do not (the stream writes [0], the format [0x0]). *)
Theorem hex_on_stream_and_in_format (f : ios) (n : Z) :
  basefield f = Hex -> showbase f = true ->
  (0 < n <= Int32.max_int -> show_int f n = format_hex_alt n) /\
  show_int f 0 <> format_hex_alt 0.
Proof.
  intros Hb Hs. unfold show_int, format_hex_alt. rewrite Hb, Hs. split.
  - intros Hn. unfold Int32.to_unsigned, Int32.max_int in *.
    rewrite Z.mod_small by lia.
    destruct n as [|p|p]; try lia. reflexivity.
  - vm_compute. discriminate.
Qed.

Lemma hex_on_stream_and_in_format_witness :
  show_int (set_showbase true (set_basefield Hex ios_init)) 42 = "0x2a" /\
  format_hex_alt 42 = "0x2a".
Proof.
  destruct (hex_on_stream_and_in_format
              (set_showbase true (set_basefield Hex ios_init)) 42
              eq_refl eq_refl) as [H _].
  rewrite <- H; [split; reflexivity | unfold Int32.max_int; lia].
Defined.

